(** * Byte-Core bazaar scanner: a shallow embedding of [scan_bazaars.py]

    The development models the class [BazaarScanner] of
    [python_bazaar/scan_bazaars.py]: the item-metadata refresh, the
    per-player bazaar fetch, the listing writer and the scan driver, over an
    explicit model of the SQLite connection and of the HTTP answers.

    Conventions of the model.
    - A decoded JSON document is a value of [json]; numbers are integers
      (floating-point payloads are outside the model).
    - A Python [dict] decoded from JSON is an association list in iteration
      order, with distinct keys as in the dict; [dict_get] reads the first
      binding of a key.
    - An HTTP exchange ([requests.get], [raise_for_status], [response.json])
      either raises or yields a document: [http_result].
    - [datetime.now()] reads an oracle [now] indexed by the number of clock
      reads made so far ([ticks]); a time stamp is an abstract instant, and
      the text order of ISO time stamps is the order of the instants.
    - The SQLite connection holds the working tables ([cur], what the
      connection itself reads) and the last committed tables ([durable]).
      Column-affinity coercions and storage faults (disk, locks) are not
      modelled; binding errors and [NOT NULL] violations are.
    - Logging is omitted. The external requests, the calls of the listing
      writer and the [time.sleep] pauses are recorded in [trace]. *)

From Stdlib Require Import ZArith Ascii String.
From stdpp Require Import gmap strings list pretty.
From stdpp Require Import sorting.

Local Open Scope string_scope.
Local Open Scope list_scope.
Local Open Scope Z_scope.
Local Set Warnings "-register-all".

(** ** Decoded JSON and the Python operations used on it *)

Inductive json : Type :=
  | JNull
  | JBool (b : bool)
  | JInt (n : Z)
  | JStr (s : string)
  | JList (l : list json)
  | JDict (d : list (string * json)).

Fixpoint dict_get (k : string) (d : list (string * json)) : option json :=
  match d with
  | [] => None
  | (k', v) :: d' => if String.eqb k k' then Some v else dict_get k d'
  end.

(** [d.get(k, default)] on a dict. *)
Definition get_default (k : string) (d : list (string * json)) (default : json) : json :=
  match dict_get k d with
  | Some v => v
  | None => default
  end.

(** Python truth value of a decoded document. *)
Definition truthy (v : json) : bool :=
  match v with
  | JNull => false
  | JBool b => b
  | JInt n => negb (n =? 0)
  | JStr s => negb (String.eqb s "")
  | JList l => match l with [] => false | _ => true end
  | JDict d => match d with [] => false | _ => true end
  end.

(** [a or b]. *)
Definition py_or (a b : json) : json := if truthy a then a else b.

Definition is_str (k : string) (v : json) : bool :=
  match v with
  | JStr s => String.eqb s k
  | _ => false
  end.

(** [k in data] for a string [k]; [None] stands for the [TypeError] raised on
    a value that is not a container. *)
Definition py_in (k : string) (data : json) : option bool :=
  match data with
  | JDict d => Some (bool_decide (is_Some (dict_get k d)))
  | JList l => Some (existsb (is_str k) l)
  | JStr s => Some (bool_decide (is_Some (String.index 0 k s)))
  | _ => None
  end.

(** [data[k]] for a string [k]; [None] stands for the [KeyError] or
    [TypeError] raised. *)
Definition py_getitem (k : string) (data : json) : option json :=
  match data with
  | JDict d => dict_get k d
  | _ => None
  end.

(** [v == 6]. *)
Definition eq_int (n : Z) (v : json) : bool :=
  match v with
  | JInt m => m =? n
  | JBool b => (if b then 1 else 0) =? n
  | _ => false
  end.

(** *** [int(s)] on an ASCII string

    Surrounding white space is skipped, a sign is accepted, and single
    underscores may separate digits; anything else raises [ValueError]
    ([None]). Digits outside ASCII and the interpreter's limit on the length
    of a decimal string are not modelled. *)

Definition is_space (a : ascii) : bool :=
  let n := nat_of_ascii a in
  ((9 <=? n)%nat && (n <=? 13)%nat) || ((28 <=? n)%nat && (n <=? 32)%nat).

Definition digit_of (a : ascii) : option Z :=
  let n := nat_of_ascii a in
  if ((48 <=? n)%nat && (n <=? 57)%nat) then Some (Z.of_nat n - 48) else None.

Fixpoint lstrip (cs : list ascii) : list ascii :=
  match cs with
  | c :: cs' => if is_space c then lstrip cs' else cs
  | [] => []
  end.

Definition strip (cs : list ascii) : list ascii :=
  rev (lstrip (rev (lstrip cs))).

Fixpoint parse_digits (acc : Z) (after_digit : bool) (cs : list ascii) : option Z :=
  match cs with
  | [] => if after_digit then Some acc else None
  | c :: cs' =>
      match digit_of c with
      | Some d => parse_digits (acc * 10 + d) true cs'
      | None =>
          if Ascii.eqb c "_"%char && after_digit
          then parse_digits acc false cs'
          else None
      end
  end.

Definition py_int (s : string) : option Z :=
  match strip (list_ascii_of_string s) with
  | c :: cs =>
      if Ascii.eqb c "-"%char then Z.opp <$> parse_digits 0 false cs
      else if Ascii.eqb c "+"%char then parse_digits 0 false cs
      else parse_digits 0 false (c :: cs)
  | [] => None
  end.

(** ** Data model *)

Definition timestamp := Z.

(** The dict built by [_get_player_bazaar] for one bazaar entry. *)
Record listing := {
  item_id : Z;
  item_name : json;
  category : json;
  price : json;
  quantity : json;
  seller_id : Z;
  seller_name : json;
  market_value : json
}.

(** The dict kept in [items_cache] for one catalog item. *)
Record cache_item := {
  ci_id : Z;
  ci_name : json;
  ci_category : json;
  ci_type : json;
  ci_market_value : json
}.

(** Table [trader_ids]. *)
Record trader_row := {
  player_id : Z;
  last_checked : option timestamp;
  active : Z
}.

(** Table [items], keyed by [item_id]. *)
Record item_row := {
  it_name : json;
  it_category : json;
  it_type : json;
  it_market_value : json;
  it_last_updated : timestamp
}.

(** Table [listings]. *)
Record listing_row := {
  row_id : Z;
  row_item : listing;
  row_timestamp : timestamp
}.

(** Table [scan_history]. *)
Record scan_row := {
  sh_id : Z;
  start_time : timestamp;
  end_time : option timestamp;
  traders_scanned : Z;
  items_found : Z;
  status : string
}.

Record tables := {
  trader_ids : list trader_row;
  items : gmap Z item_row;
  listings : list listing_row;
  listings_seq : Z;
  scan_history : list scan_row;
  scan_history_seq : Z
}.

Record connection := {
  cur : tables;
  durable : tables
}.

Inductive http_result : Type :=
  | HttpFail
  | HttpJson (data : json).

Inductive event : Type :=
  | EvCatalogRequest
  | EvBazaarRequest (player : Z)
  | EvStore (batch : list listing)
  | EvSleep.

(** What the scanner cannot control: the answers of the Torn API and the
    clock. *)
Record env := {
  catalog_response : http_result;
  bazaar_response : Z → http_result;
  now : nat → timestamp
}.

(** The fields of a [BazaarScanner] object, the clock position and the
    trace. *)
Record scanner := {
  items_cache : gmap Z cache_item;
  scan_id : option Z;
  conn : connection;
  ticks : nat;
  trace : list event
}.

(** ** The connection *)

Definition commit (c : connection) : connection :=
  {| cur := cur c; durable := cur c |}.

Definition with_cur (f : tables → tables) (c : connection) : connection :=
  {| cur := f (cur c); durable := durable c |}.

Definition with_conn (f : connection → connection) (s : scanner) : scanner :=
  {| items_cache := items_cache s; scan_id := scan_id s; conn := f (conn s);
     ticks := ticks s; trace := trace s |}.

Definition emit (ev : event) (s : scanner) : scanner :=
  {| items_cache := items_cache s; scan_id := scan_id s; conn := conn s;
     ticks := ticks s; trace := trace s ++ [ev] |}.

(** [datetime.now().isoformat()]. *)
Definition read_clock (e : env) (s : scanner) : timestamp * scanner :=
  (now e (ticks s),
   {| items_cache := items_cache s; scan_id := scan_id s; conn := conn s;
      ticks := S (ticks s); trace := trace s |}).

(** A value that [sqlite3] can bind as a statement parameter. *)
Definition int64 (n : Z) : bool := (- 2 ^ 63 <=? n) && (n <? 2 ^ 63).

Definition sql_bindable (v : json) : bool :=
  match v with
  | JNull | JBool _ | JStr _ => true
  | JInt n => int64 n
  | JList _ | JDict _ => false
  end.

Definition is_null (v : json) : bool :=
  match v with JNull => true | _ => false end.

(** The row id given by an [AUTOINCREMENT] key: one more than the largest id
    the table ever held. *)
Definition next_rowid (seq : Z) (ids : list Z) : Z :=
  foldr Z.max seq ids + 1.

Definition set_trader_ids (x : list trader_row) (tb : tables) : tables :=
  {| trader_ids := x; items := items tb; listings := listings tb;
     listings_seq := listings_seq tb; scan_history := scan_history tb;
     scan_history_seq := scan_history_seq tb |}.

Definition set_items (x : gmap Z item_row) (tb : tables) : tables :=
  {| trader_ids := trader_ids tb; items := x; listings := listings tb;
     listings_seq := listings_seq tb; scan_history := scan_history tb;
     scan_history_seq := scan_history_seq tb |}.

Definition set_listings (x : list listing_row) (seq : Z) (tb : tables) : tables :=
  {| trader_ids := trader_ids tb; items := items tb; listings := x;
     listings_seq := seq; scan_history := scan_history tb;
     scan_history_seq := scan_history_seq tb |}.

Definition set_scan_history (x : list scan_row) (seq : Z) (tb : tables) : tables :=
  {| trader_ids := trader_ids tb; items := items tb; listings := listings tb;
     listings_seq := listings_seq tb; scan_history := x;
     scan_history_seq := seq |}.

(** ** [_start_scan] and [_end_scan] *)

(** [INSERT INTO scan_history (start_time, status) VALUES (?, 'running')];
    the other columns take their defaults. *)
Definition insert_scan (t : timestamp) (tb : tables) : Z * tables :=
  let id := next_rowid (scan_history_seq tb) (sh_id <$> scan_history tb) in
  (id,
   set_scan_history
     (scan_history tb ++
        [{| sh_id := id; start_time := t; end_time := None;
            traders_scanned := 0; items_found := 0; status := "running" |}])
     id tb).

Definition _start_scan (e : env) (s : scanner) : scanner :=
  let (t, s1) := read_clock e s in
  let (id, tb) := insert_scan t (cur (conn s1)) in
  {| items_cache := items_cache s1; scan_id := Some id;
     conn := commit (with_cur (λ _, tb) (conn s1));
     ticks := ticks s1; trace := trace s1 |}.

(** [UPDATE scan_history SET ... WHERE id = ?] with the scanner's [scan_id]
    ([None] binds as [NULL] and matches no row). *)
Definition update_scan (sid : option Z) (f : scan_row → scan_row) (tb : tables) : tables :=
  set_scan_history
    ((λ r, if bool_decide (Some (sh_id r) = sid) then f r else r) <$> scan_history tb)
    (scan_history_seq tb) tb.

Definition completed_row (t : timestamp) (n_traders n_items : Z) (r : scan_row) : scan_row :=
  {| sh_id := sh_id r; start_time := start_time r; end_time := Some t;
     traders_scanned := n_traders; items_found := n_items; status := "completed" |}.

Definition failed_row (t : timestamp) (r : scan_row) : scan_row :=
  {| sh_id := sh_id r; start_time := start_time r; end_time := Some t;
     traders_scanned := traders_scanned r; items_found := items_found r;
     status := "failed" |}.

Definition _end_scan (e : env) (n_traders n_items : Z) (s : scanner) : scanner :=
  let (t, s1) := read_clock e s in
  with_conn
    (λ c, commit (with_cur (update_scan (scan_id s1) (completed_row t n_traders n_items)) c))
    s1.

(** The handler of [scan]: [if self.scan_id:] then mark the record failed. *)
Definition mark_failed (e : env) (s : scanner) : scanner :=
  match scan_id s with
  | Some id =>
      if id =? 0 then s
      else
        let (t, s1) := read_clock e s in
        with_conn (λ c, commit (with_cur (update_scan (scan_id s1) (failed_row t)) c)) s1
  | None => s
  end.

(** ** [_fetch_items_metadata] *)

Definition catalog_entry (id : Z) (item_data : list (string * json)) : cache_item :=
  {| ci_id := id;
     ci_name := get_default "name" item_data (JStr "Unknown");
     ci_category := get_default "type" item_data (JStr "Miscellaneous");
     ci_type :=
       py_or (py_or (get_default "weapon_type" item_data (JStr ""))
                    (get_default "drug_type" item_data (JStr "")))
             (JStr "");
     ci_market_value := get_default "market_value" item_data (JInt 0) |}.

(** [INSERT OR REPLACE INTO items ...] raises ([None]) when a parameter
    cannot be bound or the [NOT NULL] column [name] would receive [NULL]. *)
Definition storable (c : cache_item) : bool :=
  int64 (ci_id c) && sql_bindable (ci_name c) && sql_bindable (ci_category c)
  && sql_bindable (ci_type c) && sql_bindable (ci_market_value c)
  && negb (is_null (ci_name c)).

Definition replace_item (t : timestamp) (c : cache_item) (tb : tables) : option tables :=
  if storable c
  then Some (set_items
               (<[ci_id c := {| it_name := ci_name c; it_category := ci_category c;
                                it_type := ci_type c;
                                it_market_value := ci_market_value c;
                                it_last_updated := t |}]> (items tb)) tb)
  else None.

Definition set_cache (m : gmap Z cache_item) (s : scanner) : scanner :=
  {| items_cache := m; scan_id := scan_id s; conn := conn s;
     ticks := ticks s; trace := trace s |}.

(** The [for item_id, item_data in data['items'].items()] loop; the boolean
    is [false] when an iteration raised. *)
Fixpoint cache_items (e : env) (entries : list (string * json)) (s : scanner)
  : scanner * bool :=
  match entries with
  | [] => (s, true)
  | (k, item_data) :: rest =>
      match py_int k, item_data with
      | Some id, JDict d =>
          let item := catalog_entry id d in
          let s1 := set_cache (<[id := item]> (items_cache s)) s in
          let (t, s2) := read_clock e s1 in
          match replace_item t item (cur (conn s2)) with
          | Some tb => cache_items e rest (with_conn (with_cur (λ _, tb)) s2)
          | None => (s2, false)
          end
      | _, _ => (s, false)
      end
  end.

Definition _fetch_items_metadata (e : env) (s : scanner) : scanner * bool :=
  let s0 := emit EvCatalogRequest s in
  match catalog_response e with
  | HttpFail => (s0, false)
  | HttpJson data =>
      match py_in "items" data with
      | Some true =>
          match py_getitem "items" data with
          | Some (JDict entries) =>
              let (s1, ok) := cache_items e entries s0 in
              if ok then (with_conn commit s1, true) else (s1, false)
          | _ => (s0, false)
          end
      | _ => (s0, false)
      end
  end.

(** ** [_get_player_bazaar] *)

(** [item_info.get(key, default)], where [item_info] is the cached dict of
    the item or [{}]. *)
Definition info_get (field : cache_item → json) (item_info : option cache_item)
    (default : json) : json :=
  match item_info with
  | Some c => field c
  | None => default
  end.

(** One iteration of the loop over [data['bazaar'].items()]; [None] when
    [int(item_id)] or [item_data.get] raises. *)
Definition bazaar_item (cache : gmap Z cache_item) (player : Z) (player_name : json)
    (entry : string * json) : option listing :=
  match py_int entry.1, entry.2 with
  | Some id, JDict item_data =>
      let item_info := cache !! id in
      Some {| item_id := id;
              item_name := get_default "name" item_data
                             (info_get ci_name item_info (JStr "Unknown Item"));
              category := get_default "category" item_data
                            (info_get ci_category item_info (JStr "Miscellaneous"));
              price := get_default "price" item_data (JInt 0);
              quantity := get_default "quantity" item_data (JInt 1);
              seller_id := player;
              seller_name := player_name;
              market_value := get_default "market_value" item_data
                                (info_get ci_market_value item_info (JInt 0)) |}
  | _, _ => None
  end.

Definition set_last_checked (t : timestamp) (r : trader_row) : trader_row :=
  {| player_id := player_id r; last_checked := Some t; active := active r |}.

Definition set_inactive (r : trader_row) : trader_row :=
  {| player_id := player_id r; last_checked := last_checked r; active := 0 |}.

(** [UPDATE trader_ids SET ... WHERE player_id = ?]. *)
Definition update_trader (player : Z) (f : trader_row → trader_row) (tb : tables) : tables :=
  set_trader_ids
    ((λ r, if bool_decide (player_id r = player) then f r else r) <$> trader_ids tb) tb.

(** The scanner and the list returned; every exception ends in the handler,
    which returns [[]] and keeps what the body had already done. *)
Definition _get_player_bazaar (e : env) (player : Z) (s : scanner)
  : scanner * list listing :=
  let s0 := emit (EvBazaarRequest player) s in
  match bazaar_response e player with
  | HttpFail => (s0, [])
  | HttpJson data =>
      let (t, s1) := read_clock e s0 in
      let s2 := with_conn (with_cur (update_trader player (set_last_checked t))) s1 in
      match py_in "error" data with
      | None => (s2, [])
      | Some true =>
          match py_getitem "error" data with
          | None => (s2, [])
          | Some err =>
              match py_getitem "code" err with
              | None => (s2, [])
              | Some code =>
                  if eq_int 6 code
                  then (with_conn
                          (λ c, commit (with_cur (update_trader player set_inactive) c)) s2,
                        [])
                  else (with_conn commit s2, [])
              end
          end
      | Some false =>
          match py_in "bazaar" data with
          | None => (s2, [])
          | Some false => (with_conn commit s2, [])
          | Some true =>
              match py_getitem "bazaar" data with
              | None => (s2, [])
              | Some bazaar =>
                  if negb (truthy bazaar) then (with_conn commit s2, [])
                  else
                    match data, bazaar with
                    | JDict d, JDict entries =>
                        let player_name :=
                          get_default "name" d (JStr ("Player " +:+ pretty player)) in
                        match mapM (bazaar_item (items_cache s2) player player_name) entries with
                        | Some bazaar_items => (s2, bazaar_items)
                        | None => (s2, [])
                        end
                    | _, _ => (s2, [])
                    end
              end
          end
      end
  end.

(** ** [_store_bazaar_items] *)

(** The [INSERT INTO listings] of one item succeeds when every parameter can
    be bound and no [NOT NULL] column receives [NULL]. The seller identifier
    is read from an integer key column and always binds. *)
Definition insertable (it : listing) : bool :=
  int64 (item_id it) && sql_bindable (item_name it) && sql_bindable (category it)
  && sql_bindable (price it) && sql_bindable (quantity it)
  && sql_bindable (seller_name it) && sql_bindable (market_value it)
  && negb (is_null (item_name it)) && negb (is_null (price it))
  && negb (is_null (quantity it)).

Definition insert_listing (t : timestamp) (it : listing) (tb : tables) : tables :=
  let id := next_rowid (listings_seq tb) (row_id <$> listings tb) in
  set_listings
    (listings tb ++ [{| row_id := id; row_item := it; row_timestamp := t |}]) id tb.

(** The [for item in items] loop of inserts; it stops at the first insert
    that raises, and nothing is rolled back. *)
Fixpoint insert_listings (t : timestamp) (its : list listing) (tb : tables)
  : tables * bool :=
  match its with
  | [] => (tb, true)
  | it :: rest =>
      if insertable it then insert_listings t rest (insert_listing t it tb)
      else (tb, false)
  end.

(** [DELETE FROM listings WHERE seller_id IN (...)]. *)
Definition delete_sellers (seller_ids : gset Z) (tb : tables) : tables :=
  set_listings
    (filter (λ r, seller_id (row_item r) ∉ seller_ids) (listings tb))
    (listings_seq tb) tb.

(** The boolean is [false] when an insert raised. *)
Definition _store_bazaar_items (e : env) (its : list listing) (s : scanner)
  : scanner * bool :=
  let s0 := emit (EvStore its) s in
  let (t, s1) := read_clock e s0 in
  let tb1 :=
    match its with
    | [] => cur (conn s1)
    | _ => delete_sellers (list_to_set (seller_id <$> its)) (cur (conn s1))
    end in
  let (tb2, ok) := insert_listings t its tb1 in
  let s2 := with_conn (with_cur (λ _, tb2)) s1 in
  if ok then (with_conn commit s2, true) else (s2, false).

(** ** [scan] *)

(** [ORDER BY last_checked ASC NULLS FIRST]. *)
Definition checked_le (a b : option timestamp) : bool :=
  match a, b with
  | None, _ => true
  | Some _, None => false
  | Some x, Some y => x <=? y
  end.

Fixpoint insert_sorted (r : trader_row) (rs : list trader_row) : list trader_row :=
  match rs with
  | [] => [r]
  | r' :: rs' =>
      if checked_le (last_checked r) (last_checked r') then r :: rs
      else r' :: insert_sorted r rs'
  end.

(** Rows with equal keys keep their table order. *)
Definition order_by_last_checked (rs : list trader_row) : list trader_row :=
  foldr insert_sorted [] rs.

(** The [SELECT player_id FROM trader_ids WHERE active = 1 ORDER BY ...]
    with its optional [LIMIT]; [None] when the limit cannot be bound. A
    negative [LIMIT] is no limit in SQLite. *)
Definition select_traders (limit : option Z) (tb : tables) : option (list Z) :=
  let ids :=
    player_id <$> order_by_last_checked
                    (filter (λ r, active r = 1) (trader_ids tb)) in
  match limit with
  | None => Some ids
  | Some n =>
      if n =? 0 then Some ids
      else if negb (int64 n) then None
      else if n <? 0 then Some ids
      else Some (take (Z.to_nat n) ids)
  end.

(** [if i < len(trader_ids) - 1: time.sleep(self.delay)]: a pause unless the
    player was the last one. *)
Definition pause (rest : list Z) (s : scanner) : scanner :=
  match rest with [] => s | _ => emit EvSleep s end.

(** The local variables of [scan]. *)
Record progress := {
  n_traders : Z;
  n_items : Z;
  all_items : list listing
}.

(** [traders_scanned = 0], [items_found = 0], [all_items = []]. *)
Definition no_progress : progress :=
  {| n_traders := 0; n_items := 0; all_items := [] |}.

(** The [for i, player_id in enumerate(trader_ids)] loop. The boolean is
    [false] when [_store_bazaar_items] raised; the locals are returned as
    they were at that point. *)
Fixpoint scan_traders (e : env) (ids : list Z) (p : progress) (s : scanner)
  : scanner * progress * bool :=
  match ids with
  | [] => (s, p, true)
  | player :: rest =>
      let (s1, its) := _get_player_bazaar e player s in
      let p1 := {| n_traders := n_traders p + 1;
                   n_items := n_items p + Z.of_nat (length its);
                   all_items := all_items p ++ its |} in
      if 100 <=? Z.of_nat (length (all_items p1)) then
        let (s2, ok) := _store_bazaar_items e (all_items p1) s1 in
        if ok then
          scan_traders e rest
            {| n_traders := n_traders p1; n_items := n_items p1; all_items := [] |}
            (pause rest s2)
        else (s2, p1, false)
      else scan_traders e rest p1 (pause rest s1)
  end.

(** The body of [scan] after [_start_scan]: the [try] block and its
    handler. *)
Definition scan_body (e : env) (limit : option Z) (s : scanner) : scanner * bool :=
  match select_traders limit (cur (conn s)) with
  | None => (mark_failed e s, false)
  | Some [] => (_end_scan e 0 0 s, false)
  | Some ids =>
      let '(s1, p, ok) :=
        scan_traders e ids no_progress s in
      if negb ok then (mark_failed e s1, false)
      else
        let (s2, ok2) :=
          match all_items p with
          | [] => (s1, true)
          | _ => _store_bazaar_items e (all_items p) s1
          end in
        if ok2 then (_end_scan e (n_traders p) (n_items p) s2, true)
        else (mark_failed e s2, false)
  end.

Definition scan (e : env) (limit : option Z) (s : scanner) : scanner * bool :=
  let (s1, ok) := _fetch_items_metadata e s in
  if negb ok then (s1, false)
  else scan_body e limit (_start_scan e s1).

(** * Vocabulary of the statements *)

(** The listings held in table [listings] for one seller, in row order. *)
Definition seller_listings (seller : Z) (tb : tables) : list listing :=
  filter (λ it, seller_id it = seller) (row_item <$> listings tb).

(** The batches handed to [_store_bazaar_items] along a trace. *)
Definition stores (evs : list event) : list (list listing) :=
  omap (λ ev, match ev with EvStore b => Some b | _ => None end) evs.

(** The players asked for along a trace. *)
Definition contacted (evs : list event) : list Z :=
  omap (λ ev, match ev with EvBazaarRequest p => Some p | _ => None end) evs.

(** A field taken from the answer when it is there, else from the catalog
    when the item is there, else a fixed default. *)
Definition first_present (from_answer from_catalog : option json) (default : json) : json :=
  match from_answer, from_catalog with
  | Some v, _ => v
  | None, Some v => v
  | None, None => default
  end.

(** ** Sample data *)

Definition empty_tables : tables :=
  {| trader_ids := []; items := ∅; listings := []; listings_seq := 0;
     scan_history := []; scan_history_seq := 0 |}.

Definition fresh_scanner (tb : tables) : scanner :=
  {| items_cache := ∅; scan_id := None; conn := {| cur := tb; durable := tb |};
     ticks := 0; trace := [] |}.

Definition one_trader (player : Z) : tables :=
  set_trader_ids [{| player_id := player; last_checked := None; active := 1 |}]
    empty_tables.

Definition xanax_catalog : json :=
  JDict [("items",
          JDict [("100", JDict [("name", JStr "Xanax"); ("type", JStr "Drug");
                                ("market_value", JInt 850)])])].

Definition xanax_bazaar : json :=
  JDict [("bazaar", JDict [("100", JDict [("price", JInt 900); ("quantity", JInt 5)])])].

Definition xanax_env : env :=
  {| catalog_response := HttpJson xanax_catalog;
     bazaar_response := λ _, HttpJson xanax_bazaar;
     now := Z.of_nat |}.

Definition xanax_listing : listing :=
  {| item_id := 100; item_name := JStr "Xanax"; category := JStr "Drug";
     price := JInt 900; quantity := JInt 5; seller_id := 1111111;
     seller_name := JStr "Player 1111111"; market_value := JInt 850 |}.

(** The scanner of the Xanax scenario once the catalog is cached. *)
Definition xanax_scanner : scanner :=
  (_fetch_items_metadata xanax_env (fresh_scanner (one_trader 1111111))).1.

(** An API answer carrying an error code. *)
Definition error_answer (code : Z) : json :=
  JDict [("error", JDict [("code", JInt code); ("error", JStr "Incorrect ID")])].

Definition error_env (code : Z) : env :=
  {| catalog_response := HttpJson (JDict [("items", JDict [])]);
     bazaar_response := λ _, HttpJson (error_answer code);
     now := Z.of_nat |}.

(** A network failure on every bazaar request. *)
Definition offline_env : env :=
  {| catalog_response := HttpJson (JDict [("items", JDict [])]);
     bazaar_response := λ _, HttpFail;
     now := Z.of_nat |}.

(** A bazaar entry that carries no field at all. *)
Definition bare_env : env :=
  {| catalog_response := HttpJson (JDict [("items", JDict [])]);
     bazaar_response := λ _, HttpJson (JDict [("bazaar", JDict [("7", JDict [])])]);
     now := Z.of_nat |}.

Definition bare_listing (player : Z) : listing :=
  {| item_id := 7; item_name := JStr "Unknown Item"; category := JStr "Miscellaneous";
     price := JInt 0; quantity := JInt 1; seller_id := player;
     seller_name := JStr ("Player " +:+ pretty player); market_value := JInt 0 |}.

(** A catalog entry that [_fetch_items_metadata] processes without raising. *)
Definition entry_ok (entry : string * json) : bool :=
  match py_int entry.1, entry.2 with
  | Some id, JDict d => storable (catalog_entry id d)
  | _, _ => false
  end.



(** A network failure on the catalog request. *)
Definition no_catalog_env : env :=
  {| catalog_response := HttpFail;
     bazaar_response := λ _, HttpJson xanax_bazaar;
     now := Z.of_nat |}.

(** A bazaar of one hundred entries whose price is [null]. *)
Definition null_price_bazaar : json :=
  JDict [("bazaar",
          JDict ((λ i : Z, (pretty i, JDict [("price", JNull)])) <$> seqZ 1 100))].

Definition null_price_env : env :=
  {| catalog_response := HttpJson (JDict [("items", JDict [])]);
     bazaar_response := λ _, HttpJson null_price_bazaar;
     now := Z.of_nat |}.

(** The listings a seller will have once the pending batch is written: the
    seller's listings of the batch when there are some, else the seller's
    rows. *)
Definition pending_view (seller : Z) (tb : tables) (batch : list listing) : list listing :=
  match filter (λ it, seller_id it = seller) batch with
  | [] => seller_listings seller tb
  | mine => mine
  end.

(** The list returned by the fetch of a player. *)
Definition fetched (e : env) (s : scanner) (player : Z) : list listing :=
  (_get_player_bazaar e player s).2.

(** The cache after the entries of a catalog payload, entry by entry. *)
Definition cache_step (m : gmap Z cache_item) (entry : string * json) : gmap Z cache_item :=
  match py_int entry.1, entry.2 with
  | Some id, JDict d => <[id := catalog_entry id d]> m
  | _, _ => m
  end.

(** The entries of the catalog payload, when the answer has an [items]
    dict. *)
Definition catalog_entries (e : env) : list (string * json) :=
  match catalog_response e with
  | HttpJson data =>
      match py_getitem "items" data with
      | Some (JDict entries) => entries
      | _ => []
      end
  | HttpFail => []
  end.

(** A seller with one listing on record. *)
Definition stocked_tables (player : Z) : tables :=
  set_listings
    [{| row_id := 1; row_item := bare_listing player; row_timestamp := 0 |}] 1
    (one_trader player).

(** A successful answer with an empty bazaar. *)
Definition empty_bazaar_env : env :=
  {| catalog_response := HttpJson (JDict [("items", JDict [])]);
     bazaar_response := λ _, HttpJson (JDict [("bazaar", JDict [])]);
     now := Z.of_nat |}.

(** Two hundred and fifty active traders, none of them checked yet. *)
Definition many_traders : tables :=
  set_trader_ids
    ((λ i : Z, {| player_id := i; last_checked := None; active := 1 |}) <$> seqZ 1 250)
    empty_tables.

(** ** Vocabulary of the further properties *)

(** The HTTP exchange for the player's bazaar yields a decoded answer. *)
Definition answered (e : env) (player : Z) : bool :=
  match bazaar_response e player with
  | HttpJson _ => true
  | HttpFail => false
  end.

(** The answer for the player carries error code 6. *)
Definition not_found (e : env) (player : Z) : bool :=
  match bazaar_response e player with
  | HttpJson data =>
      match py_in "error" data with
      | Some true =>
          match py_getitem "error" data with
          | Some err =>
              match py_getitem "code" err with
              | Some code => eq_int 6 code
              | None => false
              end
          | None => false
          end
      | _ => false
      end
  | HttpFail => false
  end.

(** A row of [trader_ids] before and after the players [done] were fetched:
    the key is kept, the flag is cleared for a fetched player reported
    unknown, and the stamp is set for a fetched player that was answered. *)
Definition row_after (e : env) (done : list Z) (r r' : trader_row) : Prop :=
  player_id r' = player_id r ∧
  active r' =
    (if bool_decide (player_id r ∈ done) && not_found e (player_id r)
     then 0 else active r) ∧
  (if bool_decide (player_id r ∈ done) && answered e (player_id r)
   then is_Some (last_checked r')
   else last_checked r' = last_checked r).

(** The requests and the pauses of a trace. *)
Definition is_pace (ev : event) : bool :=
  match ev with
  | EvBazaarRequest _ | EvSleep => true
  | _ => false
  end.

Definition pace_events (evs : list event) : list event := List.filter is_pace evs.

(** One request per player with a pause between two requests. *)
Fixpoint paced (ids : list Z) : list event :=
  match ids with
  | [] => []
  | player :: rest =>
      EvBazaarRequest player ::
      match rest with
      | [] => []
      | _ => EvSleep :: paced rest
      end
  end.


(** The catalog payload as a map, a later entry overriding an earlier one
    with the same identifier. *)
Definition catalog_map (e : env) : gmap Z cache_item :=
  foldl cache_step ∅ (catalog_entries e).

(** The row of table [items] written for a cached item. *)
Definition item_row_of (c : cache_item) (t : timestamp) : item_row :=
  {| it_name := ci_name c; it_category := ci_category c; it_type := ci_type c;
     it_market_value := ci_market_value c; it_last_updated := t |}.

(** Row identifiers that are distinct and not above the recorded sequence
    value. *)
Definition ids_ok (ids : list Z) (seq : Z) : Prop :=
  NoDup ids ∧ Forall (λ i, i ≤ seq) ids.

(** The key columns of the four tables hold distinct values. *)
Definition keys_ok (tb : tables) : Prop :=
  NoDup (player_id <$> trader_ids tb) ∧
  ids_ok (row_id <$> listings tb) (listings_seq tb) ∧
  ids_ok (sh_id <$> scan_history tb) (scan_history_seq tb).

(** The sellers of a batch. *)
Definition batch_sellers (its : list listing) : gset Z :=
  list_to_set (seller_id <$> its).

(** Traders with a stamp, a missing stamp and a cleared flag. *)
Definition mixed_traders : tables :=
  set_trader_ids
    [{| player_id := 10; last_checked := Some 7; active := 1 |};
     {| player_id := 11; last_checked := None; active := 1 |};
     {| player_id := 12; last_checked := Some 3; active := 0 |};
     {| player_id := 13; last_checked := Some 3; active := 1 |}]
    empty_tables.


(** The pause emitted after a player's iteration. *)
Definition pause_events (rest : list Z) : list event :=
  match rest with [] => [] | _ => [EvSleep] end.

(** What a run of the loop over [ids] from [(p, s)] to [(p', s')] did: the
    players [done] it reached, the events [evs] it emitted, its counters,
    the listings it handed to the writer and the trader rows it left. *)
Definition loop_summary (e : env) (ids : list Z) (p : progress) (s s' : scanner)
    (p' : progress) (ok : bool) : Prop :=
  ∃ done evs,
    done `prefix_of` ids ∧
    (ok = true → done = ids) ∧
    (done = [] → ids = []) ∧
    trace s' = trace s ++ evs ∧
    contacted evs = done ∧
    pace_events evs = paced done ∧
    n_traders p' = n_traders p + Z.of_nat (length done) ∧
    n_items p' = n_items p + Z.of_nat (length (done ≫= fetched e s)) ∧
    (ok = true →
       concat (stores evs) ++ all_items p' = all_items p ++ (ids ≫= fetched e s)) ∧
    Forall2 (row_after e done) (trader_ids (cur (conn s))) (trader_ids (cur (conn s'))).

(** The record of a scan while it runs and once it is closed. *)
Definition running_row (id : Z) (t0 : timestamp) : scan_row :=
  {| sh_id := id; start_time := t0; end_time := None;
     traders_scanned := 0; items_found := 0; status := "running" |}.

Definition closed_row (id : Z) (t0 t1 : timestamp) (n m : Z) (st : string) : scan_row :=
  {| sh_id := id; start_time := t0; end_time := Some t1;
     traders_scanned := n; items_found := m; status := st |}.

(** The identifier that [_start_scan] gives to the record of the next
    scan. *)
Definition next_scan_id (tb : tables) : Z :=
  next_rowid (scan_history_seq tb) (sh_id <$> scan_history tb).

(** The players selected for a scan, none when the selection raises. *)
Definition selected (limit : option Z) (tb : tables) : list Z :=
  default [] (select_traders limit tb).

(** The events that a scan adds to the trace. *)
Definition scan_events (e : env) (limit : option Z) (s : scanner) : list event :=
  drop (length (trace s)) (trace (scan e limit s).1).

(** The generated row identifiers of [listings] and [scan_history] are
    distinct and not above the recorded sequence values. *)
Definition row_ids_ok (tb : tables) : Prop :=
  ids_ok (row_id <$> listings tb) (listings_seq tb) ∧
  ids_ok (sh_id <$> scan_history tb) (scan_history_seq tb).

(** * Properties *)

(** ** The model on sample inputs *)

Example py_int_samples :
  (py_int "100", py_int " -1_0 ", py_int "007", py_int "x", py_int "1__0", py_int "")
  = (Some 100, Some (-10), Some 7, None, None, None).
Proof. reflexivity. Qed.

(** The Xanax scenario run through a whole scan. *)
Example xanax_scan :
  let r := scan xanax_env None (fresh_scanner (one_trader 1111111)) in
  r.2 = true ∧
  listings (cur (conn r.1))
  = [{| row_id := 1; row_item := xanax_listing; row_timestamp := 3 |}] ∧
  scan_history (cur (conn r.1))
  = [{| sh_id := 1; start_time := 1; end_time := Some 4; traders_scanned := 1;
        items_found := 1; status := "completed" |}] ∧
  trader_ids (cur (conn r.1))
  = [{| player_id := 1111111; last_checked := Some 2; active := 1 |}].
Proof. vm_compute. repeat split. Qed.

(** Two hundred and fifty traders with one listing each: the listing writer
    is called three times, with 100, 100 and 50 listings. *)
Example three_flushes :
  let r := scan bare_env None (fresh_scanner many_traders) in
  r.2 = true ∧
  length <$> stores (trace r.1) = [100; 100; 50]%nat ∧
  Z.of_nat (length (listings (cur (conn r.1)))) = 250.
Proof. vm_compute. repeat split. Qed.

(** ** The fetch of one player *)

(** The proofs below case on the binding tests as a whole; [simpl] is kept
    from unfolding their conjunctions. *)
Opaque insertable storable.

Ltac fetch_cases :=
  unfold _get_player_bazaar, read_clock; simpl; repeat case_match; simpl;
  try reflexivity.

Section fetch.
Context (e : env) (player : Z) (s : scanner).

Lemma fetch_trace :
  trace (_get_player_bazaar e player s).1 = trace s ++ [EvBazaarRequest player].
Proof. fetch_cases. Qed.

Lemma fetch_listings :
  listings (cur (conn (_get_player_bazaar e player s).1)) = listings (cur (conn s)).
Proof. fetch_cases. Qed.

Lemma fetch_listings_seq :
  listings_seq (cur (conn (_get_player_bazaar e player s).1)) = listings_seq (cur (conn s)).
Proof. fetch_cases. Qed.

Lemma fetch_scan_history :
  scan_history (cur (conn (_get_player_bazaar e player s).1)) = scan_history (cur (conn s)).
Proof. fetch_cases. Qed.

Lemma fetch_scan_id : scan_id (_get_player_bazaar e player s).1 = scan_id s.
Proof. fetch_cases. Qed.

Lemma fetch_items_cache : items_cache (_get_player_bazaar e player s).1 = items_cache s.
Proof. fetch_cases. Qed.

(** A non-empty result comes from the loop over the entries of a
    [bazaar] dict, with no [error] key in the answer. *)
Lemma fetch_listings_inv (its : list listing) :
  (_get_player_bazaar e player s).2 = its → its ≠ [] →
  ∃ d entries,
    bazaar_response e player = HttpJson (JDict d) ∧
    dict_get "error" d = None ∧
    dict_get "bazaar" d = Some (JDict entries) ∧
    mapM (bazaar_item (items_cache s) player
            (get_default "name" d (JStr ("Player " +:+ pretty player)))) entries
      = Some its.
Proof.
  unfold _get_player_bazaar, read_clock. intros Hits Hne.
  destruct (bazaar_response e player) as [|data]; simpl in Hits; [congruence|].
  destruct (py_in "error" data) as [[|]|] eqn:Herr; simpl in Hits;
    [repeat case_match; simpl in Hits; congruence | | congruence].
  destruct (py_in "bazaar" data) as [[|]|] eqn:Hbaz; simpl in Hits; try congruence.
  destruct (py_getitem "bazaar" data) as [bazaar|] eqn:Hget; simpl in Hits;
    [|congruence].
  destruct (truthy bazaar); simpl in Hits; [|congruence].
  destruct data as [| | | | |d]; simpl in Hits; try congruence.
  destruct bazaar as [| | | | |entries]; simpl in Hits; try congruence.
  simpl in Herr, Hget. exists d, entries. split; [reflexivity|].
  split.
  - injection Herr as Herr. apply bool_decide_eq_false in Herr.
    destruct (dict_get "error" d); [|reflexivity].
    exfalso. apply Herr. eauto.
  - split; [exact Hget|].
    match type of Hits with
    | (match ?m with _ => _ end).2 = _ => destruct m; simpl in Hits; congruence
    end.
Qed.
End fetch.

(** The list returned by a fetch depends on the scanner through the cache
    only. *)
Lemma fetch_result_cache (e : env) (player : Z) (s s' : scanner) :
  items_cache s = items_cache s' →
  (_get_player_bazaar e player s).2 = (_get_player_bazaar e player s').2.
Proof.
  intros Hc. unfold _get_player_bazaar, read_clock. simpl. rewrite Hc.
  repeat case_match; reflexivity.
Qed.

Lemma bazaar_item_seller cache player name entry it :
  bazaar_item cache player name entry = Some it → seller_id it = player.
Proof.
  unfold bazaar_item. intros H. repeat case_match; try discriminate.
  injection H as <-. reflexivity.
Qed.

(** Every listing returned for a player names that player as its seller. *)
Lemma fetch_seller (e : env) (player : Z) (s : scanner) :
  Forall (λ it, seller_id it = player) (_get_player_bazaar e player s).2.
Proof.
  destruct (_get_player_bazaar e player s).2 as [|it its] eqn:Hres; [constructor|].
  destruct (fetch_listings_inv e player s _ Hres) as (d & entries & _ & _ & _ & Hm);
    [discriminate|].
  apply mapM_Some_1 in Hm. revert Hm. generalize (it :: its).
  induction 1; constructor; eauto using bazaar_item_seller.
Qed.

Lemma Forall2_fmap_self {A} (R : A → A → Prop) (f : A → A) (l : list A) :
  (∀ x, R x (f x)) → Forall2 R l (f <$> l).
Proof. intros H. induction l; simpl; constructor; auto. Qed.

(** The pairing of every bazaar entry with the listing built from it. *)
Lemma fetch_entries (e : env) (player : Z) (s : scanner) (its : list listing) :
  (_get_player_bazaar e player s).2 = its → its ≠ [] →
  ∃ d entries,
    bazaar_response e player = HttpJson (JDict d) ∧
    dict_get "bazaar" d = Some (JDict entries) ∧
    Forall2 (λ entry it, ∃ name,
               bazaar_item (items_cache s) player name entry = Some it)
            entries its.
Proof.
  intros Hres Hne.
  destruct (fetch_listings_inv e player s its Hres Hne)
    as (d & entries & Hresp & _ & Hbaz & Hm).
  exists d, entries. repeat split; try assumption.
  apply mapM_Some_1 in Hm. eapply Forall2_impl; [exact Hm|].
  intros entry it Hit. eexists. exact Hit.
Qed.

(** C6: in the listings returned by a fetch, the name, the category and the
    market value of every bazaar entry are those of the entry when it
    carries them, else those of the cached catalog item when the item is
    cached, else ["Unknown Item"], ["Miscellaneous"] and [0]; a price and a
    quantity carried by the entry are kept. *)
Theorem listing_fields_precedence (e : env) (player : Z) (s : scanner)
    (its : list listing) :
  (_get_player_bazaar e player s).2 = its → its ≠ [] →
  ∃ d entries,
    bazaar_response e player = HttpJson (JDict d) ∧
    dict_get "bazaar" d = Some (JDict entries) ∧
    Forall2
      (λ entry it, ∃ id item_data,
         py_int entry.1 = Some id ∧ entry.2 = JDict item_data ∧
         item_id it = id ∧
         item_name it =
           first_present (dict_get "name" item_data)
             (ci_name <$> items_cache s !! id) (JStr "Unknown Item") ∧
         category it =
           first_present (dict_get "category" item_data)
             (ci_category <$> items_cache s !! id) (JStr "Miscellaneous") ∧
         market_value it =
           first_present (dict_get "market_value" item_data)
             (ci_market_value <$> items_cache s !! id) (JInt 0) ∧
         (∀ v, dict_get "price" item_data = Some v → price it = v) ∧
         (∀ v, dict_get "quantity" item_data = Some v → quantity it = v))
      entries its.
Proof.
  intros Hres Hne.
  destruct (fetch_entries e player s its Hres Hne) as (d & entries & Hresp & Hbaz & Hall).
  exists d, entries. repeat split; try assumption.
  eapply Forall2_impl; [exact Hall|].
  intros [k v] it [name Hit]. unfold bazaar_item in Hit. simpl in Hit.
  destruct (py_int k) as [id|] eqn:Hk; [|discriminate].
  destruct v as [| | | | |item_data]; try discriminate.
  injection Hit as <-. exists id, item_data. simpl.
  unfold get_default, info_get, first_present.
  split; [exact Hk|]. do 2 (split; [reflexivity|]).
  repeat split; try (intros v ->; reflexivity);
    destruct (items_cache s !! id); simpl; repeat case_match; reflexivity.
Qed.

(** The scenario of C6: item 100 cached as ("Xanax", "Drug", 850), a bazaar
    entry with a price and a quantity only. *)
Lemma listing_fields_precedence_witness :
  (_get_player_bazaar xanax_env 1111111 xanax_scanner).2 = [xanax_listing] ∧
  ∃ d entries,
    bazaar_response xanax_env 1111111 = HttpJson (JDict d) ∧
    dict_get "bazaar" d = Some (JDict entries) ∧
    Forall2
      (λ entry it, ∃ id item_data,
         py_int entry.1 = Some id ∧ entry.2 = JDict item_data ∧
         item_id it = id ∧
         item_name it =
           first_present (dict_get "name" item_data)
             (ci_name <$> items_cache xanax_scanner !! id) (JStr "Unknown Item") ∧
         category it =
           first_present (dict_get "category" item_data)
             (ci_category <$> items_cache xanax_scanner !! id) (JStr "Miscellaneous") ∧
         market_value it =
           first_present (dict_get "market_value" item_data)
             (ci_market_value <$> items_cache xanax_scanner !! id) (JInt 0) ∧
         (∀ v, dict_get "price" item_data = Some v → price it = v) ∧
         (∀ v, dict_get "quantity" item_data = Some v → quantity it = v))
      entries [xanax_listing].
Proof.
  split; [vm_compute; reflexivity|].
  apply (listing_fields_precedence xanax_env 1111111 xanax_scanner [xanax_listing]);
    [vm_compute; reflexivity | discriminate].
Defined.

(** C10: in the listings returned by a fetch, a bazaar entry without a
    [price] yields price [0] and an entry without a [quantity] yields
    quantity [1]. *)
Theorem listing_price_quantity_defaults (e : env) (player : Z) (s : scanner)
    (its : list listing) :
  (_get_player_bazaar e player s).2 = its → its ≠ [] →
  ∃ d entries,
    bazaar_response e player = HttpJson (JDict d) ∧
    dict_get "bazaar" d = Some (JDict entries) ∧
    Forall2
      (λ entry it, ∃ item_data,
         entry.2 = JDict item_data ∧
         (dict_get "price" item_data = None → price it = JInt 0) ∧
         (dict_get "quantity" item_data = None → quantity it = JInt 1))
      entries its.
Proof.
  intros Hres Hne.
  destruct (fetch_entries e player s its Hres Hne) as (d & entries & Hresp & Hbaz & Hall).
  exists d, entries. repeat split; try assumption.
  eapply Forall2_impl; [exact Hall|].
  intros [k v] it [name Hit]. unfold bazaar_item in Hit. simpl in Hit.
  destruct (py_int k) as [id|] eqn:Hk; [|discriminate].
  destruct v as [| | | | |item_data]; try discriminate.
  injection Hit as <-. exists item_data. simpl. unfold get_default.
  repeat split; intros ->; reflexivity.
Qed.

Lemma listing_price_quantity_defaults_witness :
  (_get_player_bazaar bare_env 5 (fresh_scanner (one_trader 5))).2 = [bare_listing 5] ∧
  ∃ d entries,
    bazaar_response bare_env 5 = HttpJson (JDict d) ∧
    dict_get "bazaar" d = Some (JDict entries) ∧
    Forall2
      (λ entry it, ∃ item_data,
         entry.2 = JDict item_data ∧
         (dict_get "price" item_data = None → price it = JInt 0) ∧
         (dict_get "quantity" item_data = None → quantity it = JInt 1))
      entries [bare_listing 5].
Proof.
  split; [vm_compute; reflexivity|].
  apply (listing_price_quantity_defaults bare_env 5 (fresh_scanner (one_trader 5))
           [bare_listing 5]); [vm_compute; reflexivity | discriminate].
Defined.

(** ** The trader rows across a fetch *)

Lemma update_trader_rows (player : Z) (f : trader_row → trader_row) (tb : tables) :
  trader_ids (update_trader player f tb)
  = (λ r, if bool_decide (player_id r = player) then f r else r) <$> trader_ids tb.
Proof. reflexivity. Qed.

(** C4, as the code has it: a fetch whose HTTP exchange yields a decoded
    answer stamps the player's row with the time of the call, whatever the
    answer holds (listings, an empty bazaar, error code 6, another error),
    and touches no other row's stamp; a fetch whose HTTP exchange raises
    (network failure, timeout, HTTP error status, undecodable body) leaves
    the connection as it was. *)
Theorem last_checked_after_fetch (e : env) (player : Z) (s : scanner) :
  let s' := (_get_player_bazaar e player s).1 in
  (∀ data, bazaar_response e player = HttpJson data →
     Forall2
       (λ r r', player_id r' = player_id r ∧
                last_checked r' =
                  if bool_decide (player_id r = player)
                  then Some (now e (ticks s)) else last_checked r)
       (trader_ids (cur (conn s))) (trader_ids (cur (conn s')))) ∧
  (bazaar_response e player = HttpFail → conn s' = conn s).
Proof.
  cbv zeta. split.
  - intros data Hdata. unfold _get_player_bazaar, read_clock.
    rewrite Hdata. simpl.
    repeat case_match; simpl; rewrite ?update_trader_rows; simpl;
      rewrite ?update_trader_rows, <- ?list_fmap_compose;
      apply Forall2_fmap_self; intros r; simpl;
      repeat case_bool_decide; simpl; auto; try congruence.
  - intros Hfail. unfold _get_player_bazaar. rewrite Hfail. reflexivity.
Qed.

Lemma last_checked_after_fetch_witness :
  Forall2
    (λ r r', player_id r' = player_id r ∧
             last_checked r' =
               if bool_decide (player_id r = 5)
               then Some (now (error_env 6) (ticks (fresh_scanner (one_trader 5))))
               else last_checked r)
    (trader_ids (cur (conn (fresh_scanner (one_trader 5)))))
    (trader_ids (cur (conn (_get_player_bazaar (error_env 6) 5
                              (fresh_scanner (one_trader 5))).1))) ∧
  (bazaar_response offline_env 5 = HttpFail →
   conn (_get_player_bazaar offline_env 5 (fresh_scanner (one_trader 5))).1
   = conn (fresh_scanner (one_trader 5))).
Proof.
  split.
  - apply (proj1 (last_checked_after_fetch (error_env 6) 5 (fresh_scanner (one_trader 5)))
             (error_answer 6)).
    reflexivity.
  - apply (proj2 (last_checked_after_fetch offline_env 5 (fresh_scanner (one_trader 5)))).
Defined.

(** C4 as stated fails: after a fetch that meets a network failure the
    player's row is still unstamped. *)
Lemma last_checked_network_failure :
  bazaar_response offline_env 5 = HttpFail ∧
  last_checked <$> trader_ids (cur (conn (fresh_scanner (one_trader 5)))) = [None] ∧
  last_checked <$>
    trader_ids (cur (conn (_get_player_bazaar offline_env 5
                             (fresh_scanner (one_trader 5))).1)) = [None].
Proof. repeat split. Qed.

(** ** The catalog refresh *)

(** The loop over the catalog entries touches the cache, table [items] and
    the clock only. *)
Lemma cache_items_frame (e : env) (entries : list (string * json)) (s : scanner) :
  let s' := (cache_items e entries s).1 in
  trader_ids (cur (conn s')) = trader_ids (cur (conn s)) ∧
  listings (cur (conn s')) = listings (cur (conn s)) ∧
  listings_seq (cur (conn s')) = listings_seq (cur (conn s)) ∧
  scan_history (cur (conn s')) = scan_history (cur (conn s)) ∧
  scan_history_seq (cur (conn s')) = scan_history_seq (cur (conn s)) ∧
  durable (conn s') = durable (conn s) ∧
  trace s' = trace s ∧
  scan_id s' = scan_id s.
Proof.
  revert s. induction entries as [|[k v] rest IH]; intros s; simpl; [tauto|].
  destruct (py_int k) as [id|]; [|simpl; tauto].
  destruct v as [| | | | |d]; try (simpl; tauto).
  unfold replace_item. destruct (storable (catalog_entry id d)); [|simpl; tauto].
  match goal with |- context [cache_items e rest ?s1] => specialize (IH s1) end.
  simpl in IH. exact IH.
Qed.

Lemma cache_items_ok (e : env) (entries : list (string * json)) (s : scanner) :
  (cache_items e entries s).2 = forallb entry_ok entries.
Proof.
  revert s. induction entries as [|[k v] rest IH]; intros s; simpl; [reflexivity|].
  unfold entry_ok at 1. simpl.
  destruct (py_int k) as [id|]; [|reflexivity].
  destruct v as [| | | | |d]; try reflexivity.
  unfold replace_item. destruct (storable (catalog_entry id d)); [|reflexivity].
  apply IH.
Qed.


(** A failed refresh leaves the rows of every table but [items] and the
    committed state as they were, and asks for no bazaar. *)
Lemma fetch_items_metadata_frame (e : env) (s : scanner) :
  let s' := (_fetch_items_metadata e s).1 in
  trader_ids (cur (conn s')) = trader_ids (cur (conn s)) ∧
  listings (cur (conn s')) = listings (cur (conn s)) ∧
  listings_seq (cur (conn s')) = listings_seq (cur (conn s)) ∧
  scan_history (cur (conn s')) = scan_history (cur (conn s)) ∧
  scan_history_seq (cur (conn s')) = scan_history_seq (cur (conn s)) ∧
  trace s' = trace s ++ [EvCatalogRequest] ∧
  scan_id s' = scan_id s ∧
  ((_fetch_items_metadata e s).2 = false → durable (conn s') = durable (conn s)).
Proof.
  unfold _fetch_items_metadata.
  destruct (catalog_response e) as [|data]; [simpl; tauto|].
  destruct (py_in "items" data) as [[|]|]; try (simpl; tauto).
  destruct (py_getitem "items" data) as [[| | | | |entries]|]; try (simpl; tauto).
  pose proof (cache_items_frame e entries (emit EvCatalogRequest s)) as H.
  destruct (cache_items e entries (emit EvCatalogRequest s)) as [s1 [|]];
    simpl in *; intuition congruence.
Qed.




(** ** A scan whose catalog refresh fails *)

(** C1, as the code has it: when the catalog refresh fails, [scan] returns
    [False] at once: no bazaar is requested and the listing writer is not
    called, tables [trader_ids], [listings] and [scan_history] are as they
    were (no scan record is created), and nothing is committed. *)
Theorem scan_aborts_on_refresh_failure (e : env) (limit : option Z) (s : scanner) :
  (_fetch_items_metadata e s).2 = false →
  let r := scan e limit s in
  r.2 = false ∧
  trace r.1 = trace s ++ [EvCatalogRequest] ∧
  trader_ids (cur (conn r.1)) = trader_ids (cur (conn s)) ∧
  listings (cur (conn r.1)) = listings (cur (conn s)) ∧
  scan_history (cur (conn r.1)) = scan_history (cur (conn s)) ∧
  durable (conn r.1) = durable (conn s).
Proof.
  intros Hfail. cbv zeta. unfold scan.
  pose proof (fetch_items_metadata_frame e s) as H.
  destruct (_fetch_items_metadata e s) as [s1 ok]. simpl in *. subst ok. simpl.
  intuition congruence.
Qed.

Lemma scan_aborts_on_refresh_failure_witness :
  let s := fresh_scanner (one_trader 1111111) in
  let r := scan no_catalog_env None s in
  r.2 = false ∧
  trace r.1 = trace s ++ [EvCatalogRequest] ∧
  trader_ids (cur (conn r.1)) = trader_ids (cur (conn s)) ∧
  listings (cur (conn r.1)) = listings (cur (conn s)) ∧
  scan_history (cur (conn r.1)) = scan_history (cur (conn s)) ∧
  durable (conn r.1) = durable (conn s).
Proof.
  apply (scan_aborts_on_refresh_failure no_catalog_env None
           (fresh_scanner (one_trader 1111111))).
  reflexivity.
Defined.

(** C1 as stated fails: after a scan whose catalog request meets a network
    failure, table [scan_history] holds no record with status [failed]. *)
Lemma no_failed_record_on_refresh_failure :
  let r := scan no_catalog_env None (fresh_scanner (one_trader 1111111)) in
  (_fetch_items_metadata no_catalog_env (fresh_scanner (one_trader 1111111))).2 = false ∧
  ¬ ∃ row, row ∈ scan_history (cur (conn r.1)) ∧ status row = "failed".
Proof.
  split; [reflexivity|]. intros (row & Hin & _).
  vm_compute in Hin. by apply elem_of_nil in Hin.
Qed.

(** ** The listing writer *)

Lemma insert_listings_frame (t : timestamp) (its : list listing) (tb : tables) :
  let tb' := (insert_listings t its tb).1 in
  trader_ids tb' = trader_ids tb ∧ items tb' = items tb ∧
  scan_history tb' = scan_history tb ∧ scan_history_seq tb' = scan_history_seq tb.
Proof.
  revert tb. induction its as [|it rest IH]; intros tb; simpl; [tauto|].
  destruct (insertable it); [|simpl; tauto].
  specialize (IH (insert_listing t it tb)). simpl in IH. exact IH.
Qed.

(** When no insert raises, the batch is appended to the table in order. *)
Lemma insert_listings_ok (t : timestamp) (its : list listing) (tb tb' : tables) :
  insert_listings t its tb = (tb', true) →
  row_item <$> listings tb' = (row_item <$> listings tb) ++ its.
Proof.
  revert tb. induction its as [|it rest IH]; intros tb; simpl.
  - intros [= <-]. by rewrite app_nil_r.
  - destruct (insertable it); [|discriminate].
    intros H. rewrite (IH _ H). simpl. by rewrite fmap_app, <- app_assoc.
Qed.

Lemma store_frame (e : env) (its : list listing) (s : scanner) :
  let s' := (_store_bazaar_items e its s).1 in
  trace s' = trace s ++ [EvStore its] ∧
  scan_id s' = scan_id s ∧
  items_cache s' = items_cache s ∧
  trader_ids (cur (conn s')) = trader_ids (cur (conn s)) ∧
  scan_history (cur (conn s')) = scan_history (cur (conn s)) ∧
  scan_history_seq (cur (conn s')) = scan_history_seq (cur (conn s)).
Proof.
  unfold _store_bazaar_items, read_clock. simpl.
  match goal with |- context [insert_listings ?t its ?tb] =>
    pose proof (insert_listings_frame t its tb) as H;
    destruct (insert_listings t its tb) as [tb2 [|]] end;
    simpl in *; destruct its; simpl in *; intuition congruence.
Qed.

Lemma seller_listings_delete (seller : Z) (sellers : gset Z) (rows : list listing_row) :
  filter (λ it, seller_id it = seller)
    (row_item <$> filter (λ r, seller_id (row_item r) ∉ sellers) rows)
  = if decide (seller ∈ sellers) then []
    else filter (λ it, seller_id it = seller) (row_item <$> rows).
Proof.
  destruct (decide (seller ∈ sellers)) as [Hin|Hout].
  - induction rows as [|r rows IH]; [done|].
    rewrite filter_cons. case_decide as Hr; [|exact IH].
    rewrite fmap_cons, filter_cons_False; [exact IH|].
    intros Heq. apply Hr. by rewrite Heq.
  - induction rows as [|r rows IH]; [done|].
    rewrite filter_cons. case_decide as Hr.
    + rewrite !fmap_cons, !filter_cons, IH. done.
    + rewrite fmap_cons, (filter_cons_False _ (row_item r)); [exact IH|].
      intros Heq. apply Hout. by rewrite <- Heq.
Qed.

Lemma seller_in_batch (seller : Z) (its : list listing) :
  seller ∈ (list_to_set (seller_id <$> its) : gset Z)
  ↔ filter (λ it, seller_id it = seller) its ≠ [].
Proof.
  rewrite elem_of_list_to_set, list_elem_of_fmap. split.
  - intros (it & -> & Hin) Hnil.
    by apply (filter_nil_not_elem_of _ _ it Hnil).
  - intros Hne. destruct (filter (λ it, seller_id it = seller) its) as [|it l] eqn:Hf;
      [done|].
    assert (Hin : it ∈ filter (λ it, seller_id it = seller) its)
      by (rewrite Hf; apply list_elem_of_here).
    apply list_elem_of_filter in Hin as [Hs Hin]. eauto.
Qed.

(** A write that does not raise replaces the rows of every seller of the
    batch by the seller's listings of the batch and keeps the rows of every
    other seller. *)
Lemma store_seller_listings (e : env) (its : list listing) (s : scanner) (seller : Z) :
  (_store_bazaar_items e its s).2 = true →
  seller_listings seller (cur (conn (_store_bazaar_items e its s).1))
  = match filter (λ it, seller_id it = seller) its with
    | [] => seller_listings seller (cur (conn s))
    | mine => mine
    end.
Proof.
  unfold _store_bazaar_items, read_clock. simpl.
  match goal with |- context [insert_listings ?t its ?tb] =>
    pose proof (insert_listings_ok t its tb) as Hok;
    destruct (insert_listings t its tb) as [tb2 [|]] end; [|discriminate].
  intros _. simpl. unfold seller_listings. rewrite (Hok tb2 eq_refl), filter_app.
  destruct its as [|it0 its0]; [by rewrite app_nil_r|].
  remember (it0 :: its0) as its. simpl.
  rewrite seller_listings_delete.
  pose proof (seller_in_batch seller its) as Hin.
  case_decide as Hdec.
  - apply Hin in Hdec. simpl. by destruct (filter _ its).
  - assert (Hnil : filter (λ it, seller_id it = seller) its = []).
    { destruct (filter (λ it, seller_id it = seller) its) eqn:Hf; [done|].
      exfalso. apply Hdec, Hin. done. }
    rewrite Hnil. by rewrite app_nil_r.
Qed.

(** ** The loop over the traders *)

Lemma pause_frame (rest : list Z) (s : scanner) :
  conn (pause rest s) = conn s ∧ scan_id (pause rest s) = scan_id s ∧
  items_cache (pause rest s) = items_cache s ∧
  stores (trace (pause rest s)) = stores (trace s) ∧
  ∃ evs, trace (pause rest s) = trace s ++ evs ∧ stores evs = [].
Proof.
  destruct rest; simpl; repeat split.
  - exists []. by rewrite app_nil_r.
  - unfold stores. by rewrite omap_app, app_nil_r.
  - by exists [EvSleep].
Qed.

Lemma scan_traders_frame (e : env) (ids : list Z) (p : progress) (s : scanner) :
  let s' := (scan_traders e ids p s).1.1 in
  scan_id s' = scan_id s ∧
  items_cache s' = items_cache s ∧
  scan_history (cur (conn s')) = scan_history (cur (conn s)) ∧
  scan_history_seq (cur (conn s')) = scan_history_seq (cur (conn s)).
Proof.
  revert p s. induction ids as [|player rest IH]; intros p s; simpl; [tauto|].
  pose proof (fetch_scan_id e player s) as H1.
  pose proof (fetch_items_cache e player s) as H2.
  pose proof (fetch_scan_history e player s) as H3.
  assert (H4 : scan_history_seq (cur (conn (_get_player_bazaar e player s).1))
               = scan_history_seq (cur (conn s))) by fetch_cases.
  destruct (_get_player_bazaar e player s) as [s1 its]. simpl in *.
  destruct (pause_frame rest s1) as (Hp1 & Hp2 & Hp3 & _).
  case_match.
  - pose proof (store_frame e (all_items p ++ its) s1) as Hst.
    destruct (_store_bazaar_items e (all_items p ++ its) s1) as [s2 [|]]; simpl in *.
    + destruct (pause_frame rest s2) as (Hq1 & Hq2 & Hq3 & _).
      match goal with |- context [scan_traders e rest ?p' ?s'] =>
        specialize (IH p' s') end.
      simpl in IH. rewrite Hq1, Hq2, Hq3 in IH. intuition congruence.
    + intuition congruence.
  - match goal with |- context [scan_traders e rest ?p' ?s'] =>
      specialize (IH p' s') end.
    simpl in IH. rewrite Hp1, Hp2, Hp3 in IH. intuition congruence.
Qed.

(** The loop calls the listing writer with batches of at least one hundred
    listings only. *)
Lemma scan_traders_trace (e : env) (ids : list Z) (p : progress) (s : scanner) :
  ∃ evs, trace (scan_traders e ids p s).1.1 = trace s ++ evs ∧
         Forall (λ b, 100 ≤ Z.of_nat (length b)) (stores evs).
Proof.
  revert p s. induction ids as [|player rest IH]; intros p s; simpl.
  { exists []. by rewrite app_nil_r. }
  pose proof (fetch_trace e player s) as Ht.
  destruct (_get_player_bazaar e player s) as [s1 its]. simpl in *.
  case_match eqn:Hfull.
  - pose proof (store_frame e (all_items p ++ its) s1) as (Hst & _).
    destruct (_store_bazaar_items e (all_items p ++ its) s1) as [s2 [|]]; simpl in *.
    + destruct (pause_frame rest s2) as (_ & _ & _ & _ & evp & Hevp & Hnone).
      match goal with |- context [scan_traders e rest ?p' ?s'] =>
        destruct (IH p' s') as (evs & Hevs & Hall) end.
      exists ([EvBazaarRequest player] ++ [EvStore (all_items p ++ its)] ++ evp ++ evs).
      split.
      * rewrite Hevs, Hevp, Hst, Ht. by rewrite <- !app_assoc.
      * unfold stores in *. rewrite !omap_app, Hnone. simpl.
        constructor; [lia|exact Hall].
    + exists ([EvBazaarRequest player] ++ [EvStore (all_items p ++ its)]).
      split; [rewrite Hst, Ht; by rewrite <- !app_assoc|].
      simpl. constructor; [lia|constructor].
  - destruct (pause_frame rest s1) as (_ & _ & _ & _ & evp & Hevp & Hnone).
    match goal with |- context [scan_traders e rest ?p' ?s'] =>
      destruct (IH p' s') as (evs & Hevs & Hall) end.
    exists ([EvBazaarRequest player] ++ evp ++ evs). split.
    + rewrite Hevs, Hevp, Ht. by rewrite <- !app_assoc.
    + unfold stores in *. rewrite !omap_app, Hnone. simpl. exact Hall.
Qed.

(** A loop stopped by an exception has counted at least one trader. *)
Lemma scan_traders_aborted (e : env) (ids : list Z) (p : progress) (s : scanner) :
  (scan_traders e ids p s).2 = false →
  n_traders p < n_traders (scan_traders e ids p s).1.2.
Proof.
  revert p s. induction ids as [|player rest IH]; intros p s; simpl; [discriminate|].
  destruct (_get_player_bazaar e player s) as [s1 its]. simpl.
  case_match.
  - destruct (_store_bazaar_items e (all_items p ++ its) s1) as [s2 [|]]; simpl.
    + intros Hb. apply IH in Hb. simpl in Hb. lia.
    + intros _. lia.
  - intros Hb. apply IH in Hb. simpl in Hb. lia.
Qed.

(** ** The scan record *)

Lemma next_rowid_above (seq : Z) (ids : list Z) :
  seq < next_rowid seq ids ∧ Forall (λ i, i < next_rowid seq ids) ids.
Proof.
  unfold next_rowid. induction ids as [|i ids [IH1 IH2]]; simpl.
  - split; [lia|constructor].
  - split; [lia|]. constructor; [lia|].
    eapply Forall_impl; [exact IH2|]. simpl. intros; lia.
Qed.

Lemma update_scan_other (id : Z) (f : scan_row → scan_row) (rows : list scan_row) :
  Forall (λ i, i < id) (sh_id <$> rows) →
  (λ r, if bool_decide (Some (sh_id r) = Some id) then f r else r) <$> rows = rows.
Proof.
  induction rows as [|r rows IH]; [done|].
  intros Hall. rewrite fmap_cons in Hall. apply Forall_cons in Hall as [Hr Hall].
  rewrite fmap_cons, IH by done. case_bool_decide as Heq; [|done].
  injection Heq as Heq. lia.
Qed.

Lemma start_scan_frame (e : env) (s : scanner) :
  let s' := _start_scan e s in
  trace s' = trace s ∧ items_cache s' = items_cache s ∧
  trader_ids (cur (conn s')) = trader_ids (cur (conn s)) ∧
  listings (cur (conn s')) = listings (cur (conn s)).
Proof. repeat split. Qed.

Lemma end_scan_frame (e : env) (n m : Z) (s : scanner) :
  let s' := _end_scan e n m s in
  trace s' = trace s ∧ items_cache s' = items_cache s ∧
  trader_ids (cur (conn s')) = trader_ids (cur (conn s)) ∧
  listings (cur (conn s')) = listings (cur (conn s)).
Proof. repeat split. Qed.

Lemma mark_failed_frame (e : env) (s : scanner) :
  let s' := mark_failed e s in
  trace s' = trace s ∧ items_cache s' = items_cache s ∧
  trader_ids (cur (conn s')) = trader_ids (cur (conn s)) ∧
  listings (cur (conn s')) = listings (cur (conn s)).
Proof.
  unfold mark_failed. destruct (scan_id s) as [id|]; [|done].
  destruct (id =? 0); done.
Qed.

(** C3, as the code has it: when an exception stops the loop over the
    traders, the record opened by [_start_scan] is closed and committed with
    an end time and status [failed]; its two counters are not written and
    keep their initial value [0], although the loop had counted at least one
    trader. *)
Theorem failed_scan_record (e : env) (limit : option Z) (s0 : scanner) (ids : list Z) :
  let s := _start_scan e s0 in
  let run := scan_traders e ids no_progress s in
  let r := scan_body e limit s in
  0 ≤ scan_history_seq (cur (conn s0)) →
  select_traders limit (cur (conn s)) = Some ids →
  run.2 = false →
  r.2 = false ∧
  0 < n_traders run.1.2 ∧
  scan_history (cur (conn r.1))
  = scan_history (cur (conn s0)) ++
      [{| sh_id := next_rowid (scan_history_seq (cur (conn s0)))
                     (sh_id <$> scan_history (cur (conn s0)));
          start_time := now e (ticks s0);
          end_time := Some (now e (ticks run.1.1));
          traders_scanned := 0; items_found := 0; status := "failed" |}] ∧
  durable (conn r.1) = cur (conn r.1).
Proof.
  intros s run r Hseq Hsel Hrun.
  pose proof (scan_traders_aborted e ids no_progress s Hrun) as Hcount.
  pose proof (scan_traders_frame e ids no_progress s) as (Hid & _ & Hhist & Hhseq).
  subst r. unfold scan_body. rewrite Hsel.
  destruct ids as [|player rest]; [discriminate|].
  fold run in Hid, Hhist, Hhseq, Hcount |- *.
  destruct run as [[s1 p] ok]. simpl in *. subst ok. simpl.
  split; [done|]. split; [exact Hcount|].
  set (id := next_rowid (scan_history_seq (cur (conn s0)))
               (sh_id <$> scan_history (cur (conn s0)))) in *.
  destruct (next_rowid_above (scan_history_seq (cur (conn s0)))
              (sh_id <$> scan_history (cur (conn s0)))) as [Hlt Hfresh].
  fold id in Hlt, Hfresh.
  unfold mark_failed. rewrite Hid. subst s. simpl.
  destruct (id =? 0) eqn:Hz; [lia|]. simpl.
  split; [|done].
  rewrite Hid, Hhist. simpl. rewrite fmap_app. simpl.
  rewrite update_scan_other by done.
  by rewrite bool_decide_eq_true_2.
Qed.

Lemma failed_scan_record_witness :
  let e := null_price_env in
  let s0 := (_fetch_items_metadata e (fresh_scanner (one_trader 5))).1 in
  let s := _start_scan e s0 in
  let run := scan_traders e [5] no_progress s in
  let r := scan_body e None s in
  r.2 = false ∧
  0 < n_traders run.1.2 ∧
  scan_history (cur (conn r.1))
  = scan_history (cur (conn s0)) ++
      [{| sh_id := next_rowid (scan_history_seq (cur (conn s0)))
                     (sh_id <$> scan_history (cur (conn s0)));
          start_time := now e (ticks s0);
          end_time := Some (now e (ticks run.1.1));
          traders_scanned := 0; items_found := 0; status := "failed" |}] ∧
  durable (conn r.1) = cur (conn r.1).
Proof.
  apply (failed_scan_record null_price_env None
           (_fetch_items_metadata null_price_env (fresh_scanner (one_trader 5))).1 [5]).
  - vm_compute. discriminate.
  - vm_compute. reflexivity.
  - vm_compute. reflexivity.
Defined.

(** C3 as stated fails: the loop is stopped by the write of one player's
    hundred listings, after it has counted one trader and one hundred
    listings; the record closed as [failed] holds [0] and [0]. *)
Lemma failed_record_drops_counts :
  let e := null_price_env in
  let s0 := (_fetch_items_metadata e (fresh_scanner (one_trader 5))).1 in
  let run := scan_traders e [5] no_progress (_start_scan e s0) in
  let r := scan e None (fresh_scanner (one_trader 5)) in
  run.2 = false ∧ n_traders run.1.2 = 1 ∧ n_items run.1.2 = 100 ∧
  scan_history (cur (conn r.1))
  = [{| sh_id := 1; start_time := 0; end_time := Some 3;
        traders_scanned := 0; items_found := 0; status := "failed" |}].
Proof. vm_compute. repeat split. Qed.

(** ** The batches given to the listing writer *)

Lemma scan_body_batches (e : env) (limit : option Z) (s : scanner) :
  ∃ evs bs fin,
    trace (scan_body e limit s).1 = trace s ++ evs ∧
    stores evs = bs ++ fin ∧
    Forall (λ b, 100 ≤ Z.of_nat (length b)) bs ∧
    (fin = [] ∨ ∃ b, fin = [b] ∧ b ≠ []).
Proof.
  unfold scan_body.
  destruct (select_traders limit (cur (conn s))) as [[|player rest]|].
  - exists [], [], []. rewrite app_nil_r. repeat split; auto.
  - destruct (scan_traders_trace e (player :: rest) no_progress s) as (evs & Hevs & Hall).
    destruct (scan_traders e (player :: rest) no_progress s) as [[s1 p] ok].
    simpl in Hevs. destruct ok; simpl.
    + destruct (all_items p) as [|it its] eqn:Hrem.
      * exists evs, (stores evs), []. rewrite app_nil_r. repeat split; auto.
      * pose proof (store_frame e (it :: its) s1) as (Hst & _).
        exists (evs ++ [EvStore (it :: its)]), (stores evs), [it :: its].
        split.
        { destruct (_store_bazaar_items e (it :: its) s1) as [s2 [|]]; simpl in *;
            [|destruct (mark_failed_frame e s2) as (-> & _)];
            rewrite Hst, Hevs; by rewrite <- app_assoc. }
        split; [unfold stores; by rewrite omap_app|].
        split; [done|]. right. by exists (it :: its).
    + destruct (mark_failed_frame e s1) as (-> & _).
      exists evs, (stores evs), []. rewrite app_nil_r. repeat split; auto.
  - simpl. destruct (mark_failed_frame e s) as (-> & _).
    exists [], [], []. rewrite app_nil_r. repeat split; auto.
Qed.

(** C9: along a scan the listing writer is called with non-empty batches
    only: the calls made by the loop carry at least one hundred listings
    each, and they are followed by at most one more call, made only when
    listings remain. *)
Theorem writer_batches_nonempty (e : env) (limit : option Z) (s : scanner) :
  ∃ evs bs fin,
    trace (scan e limit s).1 = trace s ++ evs ∧
    stores evs = bs ++ fin ∧
    Forall (λ b, 100 ≤ Z.of_nat (length b)) bs ∧
    (fin = [] ∨ ∃ b, fin = [b] ∧ b ≠ []) ∧
    Forall (λ b, b ≠ []) (stores evs).
Proof.
  assert (Hmain : ∃ evs bs fin,
    trace (scan e limit s).1 = trace s ++ evs ∧
    stores evs = bs ++ fin ∧
    Forall (λ b, 100 ≤ Z.of_nat (length b)) bs ∧
    (fin = [] ∨ ∃ b, fin = [b] ∧ b ≠ [])).
  { unfold scan.
    pose proof (fetch_items_metadata_frame e s) as (_ & _ & _ & _ & _ & Ht & _).
    destruct (_fetch_items_metadata e s) as [s1 [|]]; simpl in *.
    - destruct (scan_body_batches e limit (_start_scan e s1))
        as (evs & bs & fin & Hevs & Hst & Hbs & Hfin).
      exists ([EvCatalogRequest] ++ evs), bs, fin.
      split; [rewrite Hevs; simpl; rewrite Ht; by rewrite <- app_assoc|].
      split; [exact Hst|]. by split.
    - exists [EvCatalogRequest], [], []. repeat split; auto. }
  destruct Hmain as (evs & bs & fin & Hevs & Hst & Hbs & Hfin).
  exists evs, bs, fin. repeat split; try assumption.
  rewrite Hst. apply Forall_app. split.
  - eapply Forall_impl; [exact Hbs|]. intros b Hb ->. simpl in Hb. lia.
  - destruct Hfin as [->|(b & -> & Hb)]; repeat constructor. exact Hb.
Qed.

(** ** The listings of a seller across a scan *)

Lemma insert_sorted_perm (r : trader_row) (rs : list trader_row) :
  insert_sorted r rs ≡ₚ r :: rs.
Proof.
  induction rs as [|r' rs IH]; simpl; [done|].
  case_match; [done|]. rewrite IH. apply Permutation_swap.
Qed.

Lemma order_by_last_checked_perm (rs : list trader_row) :
  order_by_last_checked rs ≡ₚ rs.
Proof.
  induction rs as [|r rs IH]; simpl; [done|].
  by rewrite insert_sorted_perm, IH.
Qed.

(** The player identifiers selected for a scan are distinct when the key
    column of [trader_ids] is. *)
Lemma select_traders_NoDup (limit : option Z) (tb : tables) (ids : list Z) :
  NoDup (player_id <$> trader_ids tb) →
  select_traders limit tb = Some ids → NoDup ids.
Proof.
  intros Hkey. unfold select_traders.
  assert (Hall : NoDup (player_id <$>
            order_by_last_checked (filter (λ r, active r = 1) (trader_ids tb)))).
  { rewrite order_by_last_checked_perm.
    eapply sublist_NoDup; [exact Hkey|].
    apply fmap_sublist, sublist_filter. }
  destruct limit as [n|]; [|by intros [= <-]].
  repeat case_match; intros [= <-]; try done.
  eapply sublist_NoDup; [exact Hall|apply sublist_take].
Qed.

Lemma select_traders_rows (limit : option Z) (tb tb' : tables) :
  trader_ids tb = trader_ids tb' → select_traders limit tb = select_traders limit tb'.
Proof. unfold select_traders. by intros ->. Qed.

Lemma pending_view_rows (seller : Z) (tb tb' : tables) (batch : list listing) :
  listings tb = listings tb' → pending_view seller tb batch = pending_view seller tb' batch.
Proof. unfold pending_view, seller_listings. by intros ->. Qed.

Lemma filter_all {A} (P : A → Prop) `{∀ x, Decision (P x)} (l : list A) :
  Forall P l → filter P l = l.
Proof.
  induction 1 as [|x l Hx Hl IH]; [done|]. by rewrite filter_cons_True, IH.
Qed.

Lemma filter_none {A} (P : A → Prop) `{∀ x, Decision (P x)} (l : list A) :
  Forall (λ x, ¬ P x) l → filter P l = [].
Proof.
  induction 1 as [|x l Hx Hl IH]; [done|]. by rewrite filter_cons_False.
Qed.

(** Adding the listings fetched for [player] to the batch changes the view
    of [player] only, and only when listings were fetched. *)
Lemma pending_view_fetch (seller player : Z) (tb : tables) (batch its : list listing) :
  Forall (λ it, seller_id it = player) its →
  Forall (λ it, seller_id it ≠ player) batch →
  pending_view seller tb (batch ++ its)
  = match (if decide (seller = player) then its else []) with
    | [] => pending_view seller tb batch
    | mine => mine
    end.
Proof.
  intros Hits Hbatch. unfold pending_view. rewrite filter_app.
  case_decide as Heq.
  - subst seller. rewrite (filter_none _ batch), (filter_all _ its) by done.
    simpl. by destruct its.
  - rewrite (filter_none _ its), app_nil_r; [done|].
    eapply Forall_impl; [exact Hits|]. simpl. congruence.
Qed.

(** The view of every seller across the loop: the listings fetched for the
    seller when the loop fetched some, else the view the seller had. *)
Lemma scan_traders_view (e : env) (seller : Z) (ids : list Z) (p : progress) (s : scanner) :
  (scan_traders e ids p s).2 = true →
  NoDup ids →
  Forall (λ it, seller_id it ∉ ids) (all_items p) →
  pending_view seller (cur (conn (scan_traders e ids p s).1.1))
    (all_items (scan_traders e ids p s).1.2)
  = match (if decide (seller ∈ ids) then fetched e s seller else []) with
    | [] => pending_view seller (cur (conn s)) (all_items p)
    | mine => mine
    end.
Proof.
  revert p s. induction ids as [|player rest IH]; intros p s Hok Hnd Hbatch.
  { reflexivity. }
  apply NoDup_cons in Hnd as [Hfresh Hnd].
  cbn [scan_traders] in Hok |- *. unfold fetched.
  pose proof (fetch_seller e player s) as Hsel.
  pose proof (fetch_listings e player s) as Hrows.
  pose proof (fetch_items_cache e player s) as Hcache.
  destruct (_get_player_bazaar e player s) as [s1 its] eqn:Hfetch. simpl in *.
  assert (Hview1 : ∀ tb, listings tb = listings (cur (conn s1)) →
            pending_view seller tb (all_items p ++ its)
            = match (if decide (seller = player) then its else []) with
              | [] => pending_view seller (cur (conn s)) (all_items p)
              | mine => mine
              end).
  { intros tb Htb. rewrite (pending_view_rows seller tb (cur (conn s))) by congruence.
    apply pending_view_fetch; [done|].
    eapply Forall_impl; [exact Hbatch|]. simpl. intros it Hit Heq.
    apply Hit. rewrite Heq. apply list_elem_of_here. }
  assert (Hrest : ∀ s2, items_cache s2 = items_cache s1 →
            (if decide (seller ∈ rest) then fetched e s2 seller else [])
            = (if decide (seller ∈ rest) then (_get_player_bazaar e seller s).2 else [])).
  { intros s2 Hs2. destruct (decide (seller ∈ rest)); [|done]. unfold fetched.
    apply fetch_result_cache. congruence. }
  assert (Hgoal : ∀ view : list listing,
            view = match (if decide (seller = player) then its else []) with
                   | [] => pending_view seller (cur (conn s)) (all_items p)
                   | mine => mine
                   end →
            match (if decide (seller ∈ rest) then (_get_player_bazaar e seller s).2 else [])
            with [] => view | mine => mine end
            = match (if decide (seller ∈ player :: rest)
                     then (_get_player_bazaar e seller s).2 else [])
              with
              | [] => pending_view seller (cur (conn s)) (all_items p)
              | mine => mine
              end).
  { intros view ->. destruct (decide (seller = player)) as [->|Hne].
    - rewrite (decide_False (P := player ∈ rest)) by done.
      rewrite (decide_True (P := player ∈ player :: rest)) by apply list_elem_of_here.
      by rewrite Hfetch.
    - destruct (decide (seller ∈ rest)) as [Hin|Hout].
      + by rewrite (decide_True (P := seller ∈ player :: rest))
          by (by apply list_elem_of_further).
      + rewrite (decide_False (P := seller ∈ player :: rest)); [done|].
        intros Hin. apply elem_of_cons in Hin as [?|?]; done. }
  destruct (pause_frame rest s1) as (Hp1 & _ & Hp3 & _).
  destruct (100 <=? Z.of_nat (length (all_items p ++ its))) eqn:Hfull.
  - pose proof (store_seller_listings e (all_items p ++ its) s1 seller) as Hst.
    pose proof (store_frame e (all_items p ++ its) s1) as (_ & _ & Hsc & _).
    destruct (_store_bazaar_items e (all_items p ++ its) s1) as [s2 [|]];
      simpl in *; [|discriminate].
    destruct (pause_frame rest s2) as (Hq1 & _ & Hq3 & _).
    rewrite IH; [|exact Hok|exact Hnd|constructor]. simpl.
    rewrite Hrest by congruence. apply Hgoal.
    unfold pending_view at 1. simpl. rewrite Hq1, Hst by done.
    apply (Hview1 (cur (conn s1))). done.
  - rewrite IH; [|exact Hok|exact Hnd|]. simpl.
    + rewrite Hrest by congruence. apply Hgoal.
      apply Hview1. by rewrite Hp1.
    + simpl. apply Forall_app. split.
      * eapply Forall_impl; [exact Hbatch|]. simpl. intros it Hit Hin.
        apply Hit. by apply list_elem_of_further.
      * eapply Forall_impl; [exact Hsel|]. simpl. intros it Heq. by rewrite Heq.
Qed.

Lemma seller_listings_rows (seller : Z) (tb tb' : tables) :
  listings tb = listings tb' → seller_listings seller tb = seller_listings seller tb'.
Proof. unfold seller_listings. by intros ->. Qed.

Lemma scan_body_view (e : env) (limit : option Z) (s : scanner) (seller : Z)
    (ids : list Z) :
  (scan_body e limit s).2 = true →
  select_traders limit (cur (conn s)) = Some ids →
  NoDup ids →
  seller_listings seller (cur (conn (scan_body e limit s).1))
  = match (if decide (seller ∈ ids) then fetched e s seller else []) with
    | [] => seller_listings seller (cur (conn s))
    | mine => mine
    end.
Proof.
  unfold scan_body. intros Hok Hsel Hnd. rewrite Hsel in Hok |- *.
  destruct ids as [|player rest]; [discriminate|].
  pose proof (scan_traders_view e seller (player :: rest) no_progress s) as Hview.
  destruct (scan_traders e (player :: rest) no_progress s) as [[s1 p] ok].
  destruct ok; [|discriminate]. simpl in Hok, Hview |- *.
  specialize (Hview eq_refl Hnd (Forall_nil_2 _)).
  change (pending_view seller (cur (conn s)) []) with
    (seller_listings seller (cur (conn s))) in Hview.
  rewrite <- Hview. clear Hview.
  destruct (all_items p) as [|it its] eqn:Hrem; simpl in *.
  - reflexivity.
  - pose proof (store_seller_listings e (it :: its) s1 seller) as Hst.
    destruct (_store_bazaar_items e (it :: its) s1) as [s2 [|]];
      simpl in *; [|discriminate].
    exact (Hst eq_refl).
Qed.

(** After a scan that completes, the rows of a seller are the listings
    fetched for it when the scan fetched some, else the rows it had. *)
Lemma scan_view (e : env) (limit : option Z) (s : scanner) (seller : Z) :
  NoDup (player_id <$> trader_ids (cur (conn s))) →
  (scan e limit s).2 = true →
  ∃ ids,
    select_traders limit (cur (conn s)) = Some ids ∧
    seller_listings seller (cur (conn (scan e limit s).1))
    = match (if decide (seller ∈ ids)
             then fetched e (_fetch_items_metadata e s).1 seller else [])
      with
      | [] => seller_listings seller (cur (conn s))
      | mine => mine
      end.
Proof.
  intros Hkey. unfold scan.
  pose proof (fetch_items_metadata_frame e s) as (Htr & Hls & _).
  destruct (_fetch_items_metadata e s) as [s1 [|]]; simpl in *; [|discriminate].
  intros Hok.
  assert (Hsame : select_traders limit (cur (conn (_start_scan e s1)))
                  = select_traders limit (cur (conn s)))
    by (apply select_traders_rows; simpl; done).
  destruct (select_traders limit (cur (conn s))) as [ids|] eqn:Hsel.
  - exists ids. split; [done|].
    rewrite (scan_body_view e limit _ seller ids Hok Hsame)
      by (eapply select_traders_NoDup; eauto).
    unfold fetched.
    rewrite (fetch_result_cache e seller (_start_scan e s1) s1) by done.
    rewrite (seller_listings_rows seller (cur (conn (_start_scan e s1))) (cur (conn s)))
      by done.
    reflexivity.
  - unfold scan_body in Hok. rewrite Hsame in Hok. discriminate.
Qed.

(** C2, as the code has it: after a scan that completes, the rows of a
    seller that the scan fetched are exactly the listings returned by that
    fetch when it returned at least one; when the fetch returned none (an
    empty bazaar as well as a not-found or failed request), and for a seller
    the scan did not fetch, the rows are those the seller had before the
    scan. *)
Theorem listings_after_scan (e : env) (limit : option Z) (s : scanner) (seller : Z) :
  NoDup (player_id <$> trader_ids (cur (conn s))) →
  (scan e limit s).2 = true →
  ∃ ids,
    select_traders limit (cur (conn s)) = Some ids ∧
    let answer := fetched e (_fetch_items_metadata e s).1 seller in
    let rows := seller_listings seller (cur (conn (scan e limit s).1)) in
    (seller ∈ ids → answer ≠ [] → rows = answer) ∧
    (seller ∈ ids → answer = [] → rows = seller_listings seller (cur (conn s))) ∧
    (seller ∉ ids → rows = seller_listings seller (cur (conn s))).
Proof.
  intros Hkey Hok.
  destruct (scan_view e limit s seller Hkey Hok) as (ids & Hsel & Hrows).
  exists ids. split; [exact Hsel|]. cbv zeta. rewrite Hrows.
  repeat split.
  - intros Hin Hne. rewrite decide_True by done.
    by destruct (fetched e (_fetch_items_metadata e s).1 seller).
  - intros Hin ->. by rewrite decide_True.
  - intros Hout. by rewrite decide_False.
Qed.

Lemma listings_after_scan_witness :
  let e := xanax_env in
  let s := fresh_scanner (one_trader 1111111) in
  ∃ ids,
    select_traders None (cur (conn s)) = Some ids ∧
    let answer := fetched e (_fetch_items_metadata e s).1 1111111 in
    let rows := seller_listings 1111111 (cur (conn (scan e None s).1)) in
    (1111111 ∈ ids → answer ≠ [] → rows = answer) ∧
    (1111111 ∈ ids → answer = [] → rows = seller_listings 1111111 (cur (conn s))) ∧
    (1111111 ∉ ids → rows = seller_listings 1111111 (cur (conn s))).
Proof.
  apply (listings_after_scan xanax_env None (fresh_scanner (one_trader 1111111)) 1111111).
  - vm_compute. repeat constructor. by intros ?%elem_of_nil.
  - vm_compute. reflexivity.
Defined.

(** C2 as stated fails twice. A seller with one row on record whose bazaar
    is answered empty keeps that row after the completed scan; and right
    after a fetch that returned a listing, table [listings] holds no row of
    the seller yet. *)
Lemma stale_listings_survive :
  (let e := empty_bazaar_env in
   let s := fresh_scanner (stocked_tables 5) in
   (scan e None s).2 = true ∧
   contacted (trace (scan e None s).1) = [5] ∧
   fetched e (_fetch_items_metadata e s).1 5 = [] ∧
   seller_listings 5 (cur (conn (scan e None s).1)) = [bare_listing 5]) ∧
  (let r := _get_player_bazaar xanax_env 1111111 xanax_scanner in
   r.2 = [xanax_listing] ∧ seller_listings 1111111 (cur (conn r.1)) = []).
Proof. vm_compute. repeat split. Qed.

(** ** Error answers *)

(** C7: an answer carrying error code 6 clears the player's [active] flag
    and an answer carrying any other code leaves every flag as it was; in
    both cases the fetch returns no listing and raises nothing, table
    [listings] is unchanged, the loop of [scan] goes on with the next player
    without calling the listing writer, and a scan that completes leaves
    the player's listings as they were. *)
Theorem error_code_outcome (e : env) (player : Z) (s : scanner)
    (d : list (string * json)) (err code : json) :
  bazaar_response e player = HttpJson (JDict d) →
  dict_get "error" d = Some err →
  py_getitem "code" err = Some code →
  let s' := (_get_player_bazaar e player s).1 in
  (_get_player_bazaar e player s).2 = [] ∧
  listings (cur (conn s')) = listings (cur (conn s)) ∧
  Forall2
    (λ r r', player_id r' = player_id r ∧
             active r' =
               if bool_decide (player_id r = player) && eq_int 6 code
               then 0 else active r)
    (trader_ids (cur (conn s))) (trader_ids (cur (conn s'))) ∧
  (∀ rest p,
     Z.of_nat (length (all_items p)) < 100 →
     scan_traders e (player :: rest) p s
     = scan_traders e rest
         {| n_traders := n_traders p + 1; n_items := n_items p;
            all_items := all_items p |}
         (pause rest s')) ∧
  (∀ limit s0,
     NoDup (player_id <$> trader_ids (cur (conn s0))) →
     (scan e limit s0).2 = true →
     seller_listings player (cur (conn (scan e limit s0).1))
     = seller_listings player (cur (conn s0))).
Proof.
  intros Hresp Herr Hcode s'.
  assert (Hnone : ∀ s1, (_get_player_bazaar e player s1).2 = []).
  { intros s1. unfold _get_player_bazaar, read_clock. rewrite Hresp. simpl.
    rewrite Herr. simpl. rewrite Hcode. destruct (eq_int 6 code); reflexivity. }
  split; [apply Hnone|]. split; [apply fetch_listings|]. split; [|split].
  - subst s'. unfold _get_player_bazaar, read_clock. rewrite Hresp. simpl.
    rewrite Herr. simpl. rewrite Hcode.
    destruct (eq_int 6 code); simpl; rewrite ?update_trader_rows; simpl;
      rewrite ?update_trader_rows, <- ?list_fmap_compose;
      apply Forall2_fmap_self; intros r; simpl;
      repeat case_bool_decide; simpl in *; auto; try congruence.
  - intros rest p Hlen. simpl.
    pose proof (Hnone s) as Hres.
    destruct (_get_player_bazaar e player s) as [s1 its] eqn:Hfetch.
    simpl in Hres. subst its. subst s'. simpl.
    rewrite app_nil_r, Z.add_0_r.
    destruct (100 <=? Z.of_nat (length (all_items p))) eqn:Hge; [lia|].
    reflexivity.
  - intros limit s0 Hkey Hok.
    destruct (scan_view e limit s0 player Hkey Hok) as (ids & _ & ->).
    unfold fetched. rewrite Hnone. by destruct (decide (player ∈ ids)).
Qed.

Lemma error_code_outcome_witness :
  let e := error_env 6 in
  let s := fresh_scanner (one_trader 2222222) in
  let s' := (_get_player_bazaar e 2222222 s).1 in
  (_get_player_bazaar e 2222222 s).2 = [] ∧
  listings (cur (conn s')) = listings (cur (conn s)) ∧
  Forall2
    (λ r r', player_id r' = player_id r ∧
             active r' =
               if bool_decide (player_id r = 2222222) && eq_int 6 (JInt 6)
               then 0 else active r)
    (trader_ids (cur (conn s))) (trader_ids (cur (conn s'))) ∧
  (∀ rest p,
     Z.of_nat (length (all_items p)) < 100 →
     scan_traders e (2222222 :: rest) p s
     = scan_traders e rest
         {| n_traders := n_traders p + 1; n_items := n_items p;
            all_items := all_items p |}
         (pause rest s')) ∧
  (∀ limit s0,
     NoDup (player_id <$> trader_ids (cur (conn s0))) →
     (scan e limit s0).2 = true →
     seller_listings 2222222 (cur (conn (scan e limit s0).1))
     = seller_listings 2222222 (cur (conn s0))).
Proof.
  apply (error_code_outcome (error_env 6) 2222222 (fresh_scanner (one_trader 2222222))
           [("error", JDict [("code", JInt 6); ("error", JStr "Incorrect ID")])]
           (JDict [("code", JInt 6); ("error", JStr "Incorrect ID")]) (JInt 6));
    reflexivity.
Defined.

(** ** Scanning twice *)

Lemma fetch_player_ids (e : env) (player : Z) (s : scanner) :
  player_id <$> trader_ids (cur (conn (_get_player_bazaar e player s).1))
  = player_id <$> trader_ids (cur (conn s)).
Proof.
  assert (Hf : ∀ (f : trader_row → trader_row) (rows : list trader_row),
            (∀ r, player_id (f r) = player_id r) →
            player_id <$>
              ((λ r, if bool_decide (player_id r = player) then f r else r) <$> rows)
            = player_id <$> rows).
  { intros f rows Hid. rewrite <- list_fmap_compose. apply list_fmap_ext.
    intros i r _. simpl. by case_bool_decide. }
  unfold _get_player_bazaar, read_clock. simpl.
  repeat case_match; simpl; rewrite ?update_trader_rows; simpl;
    rewrite ?update_trader_rows, ?Hf; done.
Qed.

Lemma scan_traders_player_ids (e : env) (ids : list Z) (p : progress) (s : scanner) :
  player_id <$> trader_ids (cur (conn (scan_traders e ids p s).1.1))
  = player_id <$> trader_ids (cur (conn s)).
Proof.
  revert p s. induction ids as [|player rest IH]; intros p s; simpl; [done|].
  pose proof (fetch_player_ids e player s) as Hfetch.
  destruct (_get_player_bazaar e player s) as [s1 its]. simpl in *.
  destruct (pause_frame rest s1) as (Hp1 & _).
  destruct (100 <=? Z.of_nat (length (all_items p ++ its))).
  - pose proof (store_frame e (all_items p ++ its) s1) as (_ & _ & _ & Hst & _).
    destruct (_store_bazaar_items e (all_items p ++ its) s1) as [s2 [|]]; simpl in *.
    + destruct (pause_frame rest s2) as (Hq1 & _).
      rewrite IH, Hq1. congruence.
    + congruence.
  - rewrite IH, Hp1. done.
Qed.

(** A scan keeps the key column of [trader_ids], and its cache is the one
    left by the catalog refresh. *)
Lemma scan_frame (e : env) (limit : option Z) (s : scanner) :
  player_id <$> trader_ids (cur (conn (scan e limit s).1))
  = player_id <$> trader_ids (cur (conn s)) ∧
  items_cache (scan e limit s).1 = items_cache (_fetch_items_metadata e s).1.
Proof.
  unfold scan.
  pose proof (fetch_items_metadata_frame e s) as (Htr & _).
  destruct (_fetch_items_metadata e s) as [s1 [|]]; simpl in *;
    [|by rewrite Htr].
  rewrite <- Htr. unfold scan_body.
  change (trader_ids (cur (conn s1))) with (trader_ids (cur (conn (_start_scan e s1)))).
  change (items_cache s1) with (items_cache (_start_scan e s1)).
  generalize (_start_scan e s1). intros s2.
  destruct (select_traders limit (cur (conn s2))) as [[|player rest]|].
  - done.
  - pose proof (scan_traders_player_ids e (player :: rest) no_progress s2) as Hids.
    pose proof (scan_traders_frame e (player :: rest) no_progress s2) as (_ & Hc & _).
    destruct (scan_traders e (player :: rest) no_progress s2) as [[s3 p] ok].
    simpl in Hids, Hc. destruct ok; simpl.
    + destruct (all_items p) as [|it its]; simpl; [by split|].
      pose proof (store_frame e (it :: its) s3) as (_ & _ & Hc' & Hst & _).
      destruct (_store_bazaar_items e (it :: its) s3) as [s4 [|]]; simpl in *.
      * split; congruence.
      * destruct (mark_failed_frame e s4) as (_ & -> & -> & _). split; congruence.
    + destruct (mark_failed_frame e s3) as (_ & -> & -> & _). done.
  - simpl. destruct (mark_failed_frame e s2) as (_ & -> & -> & _). done.
Qed.

Lemma cache_items_cache (e : env) (entries : list (string * json)) (s : scanner) :
  (cache_items e entries s).2 = true →
  items_cache (cache_items e entries s).1 = foldl cache_step (items_cache s) entries.
Proof.
  revert s. induction entries as [|[k v] rest IH]; intros s; simpl; [done|].
  unfold cache_step at 2. simpl.
  destruct (py_int k) as [id|]; [|discriminate].
  destruct v as [| | | | |d]; try discriminate.
  unfold replace_item. destruct (storable (catalog_entry id d)); [|discriminate].
  intros Hok. by rewrite IH.
Qed.

(** A successful refresh adds the entries of the payload to the cache. *)
Lemma refresh_cache (e : env) (s : scanner) :
  (_fetch_items_metadata e s).2 = true →
  items_cache (_fetch_items_metadata e s).1
  = foldl cache_step (items_cache s) (catalog_entries e).
Proof.
  unfold _fetch_items_metadata, catalog_entries.
  destruct (catalog_response e) as [|data]; [discriminate|].
  destruct (py_in "items" data) as [[|]|]; try discriminate.
  destruct (py_getitem "items" data) as [[| | | | |entries]|]; try discriminate.
  pose proof (cache_items_cache e entries (emit EvCatalogRequest s)) as Hc.
  destruct (cache_items e entries (emit EvCatalogRequest s)) as [s1 [|]];
    simpl in *; [|discriminate].
  intros _. by apply Hc.
Qed.

Lemma cache_step_lookup (m : gmap Z cache_item) (entries : list (string * json)) (k : Z) :
  foldl cache_step m entries !! k
  = match foldl cache_step ∅ entries !! k with
    | Some c => Some c
    | None => m !! k
    end.
Proof.
  revert m. induction entries as [|[key v] rest IH]; intros m; simpl.
  { by rewrite lookup_empty. }
  rewrite (IH (cache_step m (key, v))), (IH (cache_step ∅ (key, v))).
  destruct (foldl cache_step ∅ rest !! k); [done|].
  unfold cache_step. simpl.
  destruct (py_int key) as [id|]; [|by rewrite lookup_empty].
  destruct v as [| | | | |d]; try by rewrite lookup_empty.
  destruct (decide (id = k)) as [->|Hne].
  - by rewrite !lookup_insert_eq.
  - by rewrite !lookup_insert_ne, lookup_empty.
Qed.

(** Refreshing the catalog again from the same answer leaves the cache as
    the first refresh left it. *)
Lemma refresh_idempotent (e : env) (s s' : scanner) :
  (_fetch_items_metadata e s).2 = true →
  (_fetch_items_metadata e s').2 = true →
  items_cache s' = items_cache (_fetch_items_metadata e s).1 →
  items_cache (_fetch_items_metadata e s').1 = items_cache s'.
Proof.
  intros Hok Hok' Hs'. rewrite (refresh_cache e s' Hok'), Hs', (refresh_cache e s Hok).
  apply map_eq. intros k. rewrite cache_step_lookup.
  rewrite (cache_step_lookup (items_cache s)).
  by destruct (foldl cache_step ∅ (catalog_entries e) !! k).
Qed.

Lemma scan_ok_refresh_ok (e : env) (limit : option Z) (s : scanner) :
  (scan e limit s).2 = true → (_fetch_items_metadata e s).2 = true.
Proof.
  unfold scan. by destruct (_fetch_items_metadata e s) as [s1 [|]].
Qed.

(** C8: when two scans in a row complete under the same answers of the API,
    every seller fetched by the first scan has the same listings on record
    after the second scan as after the first: the rows written for the
    seller are replaced, not added to. *)
Theorem rescan_same_listings (e : env) (limit1 limit2 : option Z) (s : scanner)
    (seller : Z) (ids1 : list Z) :
  let r1 := scan e limit1 s in
  let r2 := scan e limit2 r1.1 in
  NoDup (player_id <$> trader_ids (cur (conn s))) →
  r1.2 = true → r2.2 = true →
  select_traders limit1 (cur (conn s)) = Some ids1 → seller ∈ ids1 →
  seller_listings seller (cur (conn r2.1)) = seller_listings seller (cur (conn r1.1)).
Proof.
  intros r1 r2 Hkey Hok1 Hok2 Hsel Hin. subst r1 r2.
  destruct (scan_frame e limit1 s) as [Hids Hcache].
  destruct (scan_view e limit1 s seller Hkey Hok1) as (ids & Hsel' & Hrows1).
  rewrite Hsel in Hsel'. injection Hsel' as <-.
  rewrite decide_True in Hrows1 by done.
  destruct (scan_view e limit2 (scan e limit1 s).1 seller) as (ids2 & _ & Hrows2);
    [by rewrite Hids|exact Hok2|].
  assert (Hsame : fetched e (_fetch_items_metadata e (scan e limit1 s).1).1 seller
                  = fetched e (_fetch_items_metadata e s).1 seller).
  { apply fetch_result_cache.
    rewrite (refresh_idempotent e s (scan e limit1 s).1);
      eauto using scan_ok_refresh_ok. }
  rewrite Hrows2, Hsame, Hrows1.
  destruct (decide (seller ∈ ids2)); [|done].
  by destruct (fetched e (_fetch_items_metadata e s).1 seller).
Qed.

Lemma rescan_same_listings_witness :
  let e := xanax_env in
  let s := fresh_scanner (one_trader 1111111) in
  let r1 := scan e None s in
  let r2 := scan e None r1.1 in
  seller_listings 1111111 (cur (conn r2.1)) = seller_listings 1111111 (cur (conn r1.1)).
Proof.
  apply (rescan_same_listings xanax_env None None (fresh_scanner (one_trader 1111111))
           1111111 [1111111]).
  - vm_compute. repeat constructor. by intros ?%elem_of_nil.
  - vm_compute. reflexivity.
  - vm_compute. reflexivity.
  - vm_compute. reflexivity.
  - apply list_elem_of_here.
Defined.

(** * Further properties *)

(** ** The trader rows across a fetch and across the loop *)

Lemma row_after_one (e : env) (player : Z) (f : trader_row → trader_row) (r : trader_row) :
  player_id (f r) = player_id r →
  active (f r) = (if not_found e player then 0 else active r) →
  (if answered e player then is_Some (last_checked (f r))
   else last_checked (f r) = last_checked r) →
  row_after e [player] r (if bool_decide (player_id r = player) then f r else r).
Proof.
  intros Hid Hact Hlc. unfold row_after.
  destruct (decide (player_id r = player)) as [Heq|Hne].
  - rewrite (bool_decide_eq_true_2 _ Heq).
    rewrite (bool_decide_eq_true_2 (player_id r ∈ [player]))
      by (rewrite Heq; apply list_elem_of_here).
    simpl. rewrite Heq. split; [congruence|]. by split.
  - rewrite (bool_decide_eq_false_2 _ Hne).
    rewrite (bool_decide_eq_false_2 (player_id r ∈ [player]));
      [done|].
    intros Hin. apply elem_of_cons in Hin as [?|Hin]; [done|].
    by apply elem_of_nil in Hin.
Qed.

(** What a fetch does to table [trader_ids]. *)
Lemma fetch_rows (e : env) (player : Z) (s : scanner) :
  Forall2 (row_after e [player])
    (trader_ids (cur (conn s)))
    (trader_ids (cur (conn (_get_player_bazaar e player s).1))).
Proof.
  assert (Hone : ∀ (f : trader_row → trader_row),
            (∀ r, player_id (f r) = player_id r) →
            (∀ r, active (f r) = (if not_found e player then 0 else active r)) →
            (∀ r, if answered e player then is_Some (last_checked (f r))
                  else last_checked (f r) = last_checked r) →
            Forall2 (row_after e [player]) (trader_ids (cur (conn s)))
              ((λ r, if bool_decide (player_id r = player) then f r else r)
                 <$> trader_ids (cur (conn s)))).
  { intros f H1 H2 H3. apply Forall2_fmap_self. intros r.
    apply row_after_one; [apply H1|apply H2|apply H3]. }
  assert (Htwo : ∀ t (rows : list trader_row),
            (λ r, if bool_decide (player_id r = player) then set_inactive r else r)
              <$> ((λ r, if bool_decide (player_id r = player)
                         then set_last_checked t r else r) <$> rows)
            = (λ r, if bool_decide (player_id r = player)
                    then set_inactive (set_last_checked t r) else r) <$> rows).
  { intros t rows. rewrite <- list_fmap_compose. apply list_fmap_ext.
    intros i r _. simpl. by repeat case_bool_decide. }
  unfold _get_player_bazaar, read_clock, not_found, answered in *.
  destruct (bazaar_response e player) as [|data] eqn:Hr; simpl.
  { specialize (Hone (λ r, r)). simpl in Hone.
    assert (Hsame : (λ r, if bool_decide (player_id r = player) then r else r)
                      <$> trader_ids (cur (conn s)) = trader_ids (cur (conn s))).
    { rewrite <- (list_fmap_id (trader_ids (cur (conn s)))) at 2.
      apply list_fmap_ext. intros i r _. simpl. by case_bool_decide. }
    rewrite Hsame in Hone. by apply Hone. }
  destruct (py_in "error" data) as [[|]|] eqn:Hin; simpl.
  - destruct (py_getitem "error" data) as [err|] eqn:Hget; simpl;
      [|apply Hone; intros r; simpl; eauto].
    destruct (py_getitem "code" err) as [code|] eqn:Hcode; simpl;
      [|apply Hone; intros r; simpl; eauto].
    destruct (eq_int 6 code) eqn:H6; simpl.
    + rewrite Htwo.
      apply (Hone (λ r, set_inactive (set_last_checked _ r))); intros r; simpl; eauto.
    + apply Hone; intros r; simpl; eauto.
  - repeat case_match; simpl; apply Hone; intros r; simpl; eauto.
  - apply Hone; intros r; simpl; eauto.
Qed.

Lemma row_after_nil (e : env) (r : trader_row) : row_after e [] r r.
Proof.
  unfold row_after.
  rewrite (bool_decide_eq_false_2 (player_id r ∈ [])) by apply not_elem_of_nil.
  done.
Qed.

Lemma row_after_cons (e : env) (player : Z) (done : list Z) (r1 r2 r3 : trader_row) :
  row_after e [player] r1 r2 → row_after e done r2 r3 →
  row_after e (player :: done) r1 r3.
Proof.
  unfold row_after. intros (Hid1 & Hact1 & Hlc1) (Hid2 & Hact2 & Hlc2).
  rewrite Hid1 in Hact2, Hlc2.
  split; [congruence|].
  destruct (decide (player_id r1 = player)) as [Heq|Hne].
  - rewrite (bool_decide_eq_true_2 (player_id r1 ∈ [player])) in Hact1, Hlc1
      by (rewrite Heq; apply list_elem_of_here).
    rewrite (bool_decide_eq_true_2 (player_id r1 ∈ player :: done))
      by (rewrite Heq; apply list_elem_of_here).
    simpl in *. rewrite Hact2, Hact1. split.
    + destruct (bool_decide (player_id r1 ∈ done)), (not_found e (player_id r1)); done.
    + destruct (answered e (player_id r1)); simpl in *.
      * destruct (bool_decide (player_id r1 ∈ done)); simpl in *; [done|].
        by rewrite Hlc2.
      * rewrite andb_false_r in Hlc2. by rewrite Hlc2.
  - assert (Hone : bool_decide (player_id r1 ∈ [player]) = false).
    { apply bool_decide_eq_false_2. intros Hin.
      apply elem_of_cons in Hin as [?|Hin]; [done|]. by apply elem_of_nil in Hin. }
    assert (Hcons : bool_decide (player_id r1 ∈ player :: done)
                    = bool_decide (player_id r1 ∈ done)).
    { apply bool_decide_ext. rewrite elem_of_cons.
      split; [intros [?|?]; done|by right]. }
    rewrite Hone in Hact1, Hlc1. simpl in *. rewrite Hcons, Hact2, Hact1.
    split; [done|].
    destruct (bool_decide (player_id r1 ∈ done) && answered e (player_id r1));
      [done|congruence].
Qed.

Lemma pause_trace (rest : list Z) (s : scanner) :
  trace (pause rest s) = trace s ++ pause_events rest.
Proof. destruct rest; simpl; [by rewrite app_nil_r|done]. Qed.

Lemma fetched_cache (e : env) (s s' : scanner) (ids : list Z) :
  items_cache s = items_cache s' → ids ≫= fetched e s = ids ≫= fetched e s'.
Proof.
  intros Hc. apply list_bind_ext; [|done]. intros q. unfold fetched.
  by apply fetch_result_cache.
Qed.

Lemma stores_app (evs1 evs2 : list event) :
  stores (evs1 ++ evs2) = stores evs1 ++ stores evs2.
Proof. apply omap_app. Qed.

Lemma contacted_app (evs1 evs2 : list event) :
  contacted (evs1 ++ evs2) = contacted evs1 ++ contacted evs2.
Proof. apply omap_app. Qed.

Lemma pace_events_app (evs1 evs2 : list event) :
  pace_events (evs1 ++ evs2) = pace_events evs1 ++ pace_events evs2.
Proof. apply List.filter_app. Qed.

(** One more player in front of a summarised run. *)
Lemma loop_summary_cons (e : env) (player : Z) (rest : list Z) (p pm : progress)
    (s sm s' : scanner) (p' : progress) (ok : bool) (written : list event) :
  loop_summary e rest pm sm s' p' ok →
  trace sm = trace s ++ [EvBazaarRequest player] ++ written ++ pause_events rest →
  contacted written = [] → pace_events written = [] →
  items_cache sm = items_cache s →
  Forall2 (row_after e [player]) (trader_ids (cur (conn s))) (trader_ids (cur (conn sm))) →
  n_traders pm = n_traders p + 1 →
  n_items pm = n_items p + Z.of_nat (length (fetched e s player)) →
  concat (stores written) ++ all_items pm = all_items p ++ fetched e s player →
  loop_summary e (player :: rest) p s s' p' ok.
Proof.
  intros (done & evs & Hpre & Hall & Hnil & Htr & Hcon & Hpace & Hn & Hi & Hw & Hrows)
    Hmid Hwc Hwp Hcache Hrow1 Hn1 Hi1 Hw1.
  exists (player :: done),
    ([EvBazaarRequest player] ++ written ++ pause_events rest ++ evs).
  rewrite (fetched_cache e sm s) in Hi, Hw by done.
  split; [by apply prefix_cons|].
  split; [intros Hok; by rewrite (Hall Hok)|].
  split; [done|].
  split; [rewrite Htr, Hmid; by rewrite <- !app_assoc|].
  assert (Hpe : contacted (pause_events rest) = [] ∧ stores (pause_events rest) = []
                ∧ pace_events (pause_events rest) = pause_events rest)
    by (by destruct rest).
  destruct Hpe as (Hpe1 & Hpe2 & Hpe3).
  split.
  { rewrite !contacted_app, Hwc, Hpe1, Hcon. done. }
  split.
  { rewrite !pace_events_app, Hwp, Hpe3, Hpace. simpl.
    destruct rest as [|q rest].
    - apply prefix_nil_inv in Hpre. by subst done.
    - destruct done as [|q' done]; [by specialize (Hnil eq_refl)|]. done. }
  split; [rewrite Hn, Hn1; simpl; lia|].
  split.
  { rewrite Hi, Hi1, bind_cons, length_app. lia. }
  split.
  { intros Hok. specialize (Hw Hok).
    rewrite !stores_app, Hpe2.
    change (stores [EvBazaarRequest player]) with (@nil (list listing)).
    rewrite !app_nil_l, concat_app, <- app_assoc, Hw, app_assoc, Hw1, bind_cons.
    by rewrite <- app_assoc. }
  eapply Forall2_trans; [|exact Hrow1|exact Hrows].
  intros r1 r2 r3. apply row_after_cons.
Qed.

(** The summary of every run of the loop. *)
Lemma scan_traders_run (e : env) (ids : list Z) (p : progress) (s s' : scanner)
    (p' : progress) (ok : bool) :
  scan_traders e ids p s = (s', p', ok) → loop_summary e ids p s s' p' ok.
Proof.
  revert p s. induction ids as [|player rest IH]; intros p s Hrun.
  { injection Hrun as <- <- <-. exists [], [].
    rewrite !app_nil_r. repeat split; try done.
    - simpl. lia.
    - simpl. lia.
    - apply Forall_Forall2_diag, Forall_forall. intros r _. apply row_after_nil. }
  cbn [scan_traders] in Hrun.
  pose proof (fetch_trace e player s) as Htr.
  pose proof (fetch_rows e player s) as Hrows.
  pose proof (fetch_items_cache e player s) as Hcache.
  assert (Hits : fetched e s player = (_get_player_bazaar e player s).2) by done.
  destruct (_get_player_bazaar e player s) as [s1 its]. simpl in *.
  destruct (pause_frame rest s1) as (Hp1 & _ & Hp3 & _).
  destruct (100 <=? Z.of_nat (length (all_items p ++ its))).
  - pose proof (store_frame e (all_items p ++ its) s1) as (Hst & _ & Hsc & Hsr & _).
    destruct (_store_bazaar_items e (all_items p ++ its) s1) as [s2 [|]]; simpl in *.
    + destruct (pause_frame rest s2) as (Hq1 & _ & Hq3 & _).
      eapply (loop_summary_cons e player rest p _ s (pause rest s2) s' p' ok
                [EvStore (all_items p ++ its)]);
        [apply IH; exact Hrun|..]; try done.
      * rewrite pause_trace, Hst, Htr. by rewrite <- !app_assoc.
      * congruence.
      * rewrite Hq1, Hsr. done.
      * simpl. by rewrite Hits.
      * simpl. by rewrite Hits, !app_nil_r.
    + injection Hrun as <- <- <-.
      exists [player], [EvBazaarRequest player; EvStore (all_items p ++ its)].
      split; [apply prefix_cons, prefix_nil|].
      split; [done|]. split; [done|].
      split; [rewrite Hst, Htr; by rewrite <- app_assoc|].
      repeat split; try done.
      * simpl. rewrite Hits, app_nil_r. done.
      * by rewrite Hsr.
  - eapply (loop_summary_cons e player rest p _ s (pause rest s1) s' p' ok []);
      [apply IH; exact Hrun|..]; try done.
    + rewrite pause_trace, Htr. by rewrite <- !app_assoc.
    + congruence.
    + by rewrite Hp1.
    + simpl. by rewrite Hits.
    + simpl. by rewrite Hits.
Qed.

(** ** The events and the trader rows of a whole scan *)

(** Every scan, whatever its outcome: the players reached are a prefix of
    the selection, requests and pauses alternate, and the trader rows are
    those described by [row_after]; a scan that completes has reached every
    selected player and has handed every fetched listing to the writer. *)
Lemma scan_run (e : env) (limit : option Z) (s : scanner) :
  ∃ done evs,
    trace (scan e limit s).1 = trace s ++ [EvCatalogRequest] ++ evs ∧
    contacted evs = done ∧
    pace_events evs = paced done ∧
    done `prefix_of` selected limit (cur (conn s)) ∧
    ((scan e limit s).2 = true →
       select_traders limit (cur (conn s)) = Some done ∧
       concat (stores evs) = done ≫= fetched e (_fetch_items_metadata e s).1) ∧
    Forall2 (row_after e done)
      (trader_ids (cur (conn s))) (trader_ids (cur (conn (scan e limit s).1))).
Proof.
  assert (Hnone : ∀ s' : scanner,
            trace s' = trace s ++ [EvCatalogRequest] →
            trader_ids (cur (conn s')) = trader_ids (cur (conn s)) →
            ∃ done evs,
              trace s' = trace s ++ [EvCatalogRequest] ++ evs ∧
              contacted evs = done ∧ pace_events evs = paced done ∧
              done `prefix_of` selected limit (cur (conn s)) ∧
              (false = true →
                 select_traders limit (cur (conn s)) = Some done ∧
                 concat (stores evs) = done ≫= fetched e (_fetch_items_metadata e s).1) ∧
              Forall2 (row_after e done)
                (trader_ids (cur (conn s))) (trader_ids (cur (conn s')))).
  { intros s' Htr Hrows. exists [], []. rewrite app_nil_r, Hrows.
    repeat split; try done; [apply prefix_nil|].
    apply Forall_Forall2_diag, Forall_forall. intros r _. apply row_after_nil. }
  unfold scan.
  pose proof (fetch_items_metadata_frame e s) as (Hrows1 & _ & _ & _ & _ & Htr1 & _).
  destruct (_fetch_items_metadata e s) as [s1 [|]]; simpl in *; [|by apply Hnone].
  unfold scan_body. unfold selected in *.
  assert (Hsel : select_traders limit (cur (conn (_start_scan e s1)))
                 = select_traders limit (cur (conn s)))
    by (by apply select_traders_rows).
  rewrite Hsel.
  destruct (select_traders limit (cur (conn s))) as [[|player rest]|] eqn:Hids.
  - apply Hnone; simpl; done.
  - destruct (scan_traders e (player :: rest) no_progress (_start_scan e s1))
      as [[s2 p] ok] eqn:Hrun.
    destruct (scan_traders_run e _ _ _ _ _ _ Hrun)
      as (done & evs & Hpre & Hall & _ & Htr & Hcon & Hpace & _ & _ & Hw & Hrows).
    rewrite (fetched_cache e (_start_scan e s1) s1) in Hw by done.
    unfold no_progress in Hw. cbn [all_items app] in Hw.
    change (trader_ids (cur (conn (_start_scan e s1))))
      with (trader_ids (cur (conn s1))) in Hrows.
    change (trace (_start_scan e s1)) with (trace s1) in Htr.
    rewrite Hrows1 in Hrows. rewrite Htr1, <- app_assoc in Htr.
    destruct ok; cbn [fst snd negb].
    + specialize (Hall eq_refl). specialize (Hw eq_refl). subst done.
      destruct (all_items p) as [|it its] eqn:Hrem; cbn [fst snd].
      * exists (player :: rest), evs. rewrite app_nil_r in Hw. done.
      * pose proof (store_frame e (it :: its) s2) as (Hst & _ & _ & Hsr & _).
        exists (player :: rest), (evs ++ [EvStore (it :: its)]).
        assert (Hfin : ∀ s3 : scanner,
                  trace s3 = trace (_store_bazaar_items e (it :: its) s2).1 →
                  trader_ids (cur (conn s3))
                  = trader_ids (cur (conn (_store_bazaar_items e (it :: its) s2).1)) →
                  trace s3 = trace s ++ [EvCatalogRequest] ++ evs ++ [EvStore (it :: its)] ∧
                  Forall2 (row_after e (player :: rest)) (trader_ids (cur (conn s)))
                    (trader_ids (cur (conn s3)))).
        { intros s3 -> ->. rewrite Hst, Htr, Hsr. by rewrite <- !app_assoc. }
        rewrite contacted_app, pace_events_app, stores_app, Hcon, Hpace, concat_app.
        change (contacted [EvStore (it :: its)]) with (@nil Z).
        change (pace_events [EvStore (it :: its)]) with (@nil event).
        change (concat (stores [EvStore (it :: its)])) with ((it :: its) ++ []).
        rewrite !app_nil_r.
        destruct (_store_bazaar_items e (it :: its) s2) as [s3 [|]]; cbn [fst snd] in *.
        -- destruct (Hfin (_end_scan e (n_traders p) (n_items p) s3)) as [-> ?]; done.
        -- destruct (mark_failed_frame e s3) as (Hm1 & _ & Hm2 & _).
           destruct (Hfin (mark_failed e s3)) as [-> ?]; done.
    + destruct (mark_failed_frame e s2) as (-> & _ & -> & _).
      exists done, evs. done.
  - simpl. destruct (mark_failed_frame e (_start_scan e s1)) as (Hm1 & _ & Hm2 & _).
    apply Hnone; [by rewrite Hm1|by rewrite Hm2].
Qed.

(** ** The selection of the traders *)

Lemma checked_le_trans (a b c : option timestamp) :
  checked_le a b → checked_le b c → checked_le a c.
Proof.
  destruct a as [x|], b as [y|], c as [z|]; simpl; try done.
  rewrite !Is_true_true, !Z.leb_le. lia.
Qed.

Lemma checked_le_total (a b : option timestamp) :
  checked_le a b = false → checked_le b a.
Proof.
  destruct a as [x|], b as [y|]; simpl; try done.
  rewrite Is_true_true, Z.leb_gt, Z.leb_le. lia.
Qed.

Lemma insert_sorted_sorted (r : trader_row) (rs : list trader_row) :
  StronglySorted (λ a b, checked_le (last_checked a) (last_checked b)) rs →
  StronglySorted (λ a b, checked_le (last_checked a) (last_checked b))
    (insert_sorted r rs).
Proof.
  induction 1 as [|r' rs Hs IH Hall]; simpl.
  { repeat constructor. }
  destruct (checked_le (last_checked r) (last_checked r')) eqn:Hle.
  - constructor; [by constructor|]. constructor; [by rewrite Hle|].
    eapply Forall_impl; [exact Hall|]. simpl. intros r2.
    apply checked_le_trans. by rewrite Hle.
  - constructor; [exact IH|]. rewrite insert_sorted_perm.
    constructor; [by apply checked_le_total|exact Hall].
Qed.

Lemma order_by_last_checked_sorted (rs : list trader_row) :
  StronglySorted (λ a b, checked_le (last_checked a) (last_checked b))
    (order_by_last_checked rs).
Proof.
  induction rs as [|r rs IH]; simpl; [constructor|].
  by apply insert_sorted_sorted.
Qed.

Lemma StronglySorted_take {A} (R : A → A → Prop) (n : nat) (l : list A) :
  StronglySorted R l → StronglySorted R (take n l).
Proof.
  intros Hs. revert n. induction Hs as [|x l Hs IH Hall]; intros [|n]; simpl;
    try constructor; [apply IH|by apply Forall_take].
Qed.

(** The rows behind a selection. *)
Lemma select_traders_rows_of (limit : option Z) (tb : tables) (ids : list Z) :
  select_traders limit tb = Some ids →
  ∃ rows,
    ids = player_id <$> rows ∧
    rows ⊆+ trader_ids tb ∧
    Forall (λ r, active r = 1) rows ∧
    StronglySorted (λ a b, checked_le (last_checked a) (last_checked b)) rows.
Proof.
  set (sel := order_by_last_checked (filter (λ r, active r = 1) (trader_ids tb))).
  assert (Hsub : sel ⊆+ trader_ids tb).
  { unfold sel. rewrite order_by_last_checked_perm.
    apply sublist_submseteq, sublist_filter. }
  assert (Hact : Forall (λ r, active r = 1) sel).
  { unfold sel. rewrite order_by_last_checked_perm.
    apply Forall_forall. intros r Hin. by apply list_elem_of_filter in Hin as [? _]. }
  assert (Hsorted : StronglySorted
            (λ a b, checked_le (last_checked a) (last_checked b)) sel)
    by apply order_by_last_checked_sorted.
  assert (Hall : ∃ rows, player_id <$> sel = player_id <$> rows ∧
            rows ⊆+ trader_ids tb ∧ Forall (λ r, active r = 1) rows ∧
            StronglySorted (λ a b, checked_le (last_checked a) (last_checked b)) rows)
    by (by exists sel).
  unfold select_traders. fold sel.
  destruct limit as [n|]; [|by intros [= <-]].
  destruct (n =? 0); [by intros [= <-]|].
  destruct (int64 n); simpl; [|done].
  destruct (n <? 0); intros [= <-]; [done|].
  exists (take (Z.to_nat n) sel). split; [by rewrite fmap_take|].
  split; [|split].
  - etrans; [|exact Hsub]. apply sublist_submseteq, sublist_take.
  - by apply Forall_take.
  - by apply StronglySorted_take.
Qed.

(** X4: the players selected for a scan come from distinct rows of
    [trader_ids] whose [active] flag is 1, and they are ordered by
    [last_checked], the rows never checked first. *)
Theorem selection_active_sorted (limit : option Z) (tb : tables) (ids : list Z) :
  select_traders limit tb = Some ids →
  ∃ rows,
    ids = player_id <$> rows ∧
    rows ⊆+ trader_ids tb ∧
    Forall (λ r, active r = 1) rows ∧
    StronglySorted (λ a b, checked_le (last_checked a) (last_checked b)) rows.
Proof. apply select_traders_rows_of. Qed.

Lemma selection_active_sorted_witness :
  ∃ rows,
    [11; 13; 10] = player_id <$> rows ∧
    rows ⊆+ trader_ids mixed_traders ∧
    Forall (λ r, active r = 1) rows ∧
    StronglySorted (λ a b, checked_le (last_checked a) (last_checked b)) rows.
Proof.
  apply (selection_active_sorted None mixed_traders [11; 13; 10]). reflexivity.
Defined.

(** X5: without a limit, and with a limit of zero or below, every active
    trader is selected; a positive limit [n] selects [n] players, or all the
    active traders when there are fewer; a limit that SQLite cannot bind
    makes the selection raise. *)
Theorem selection_size (limit : option Z) (tb : tables) :
  let all := filter (λ r, active r = 1) (trader_ids tb) in
  match limit with
  | None => ∃ ids, select_traders limit tb = Some ids ∧ ids ≡ₚ player_id <$> all
  | Some n =>
      if n =? 0 then ∃ ids, select_traders limit tb = Some ids ∧ ids ≡ₚ player_id <$> all
      else if negb (int64 n) then select_traders limit tb = None
      else if n <? 0
      then ∃ ids, select_traders limit tb = Some ids ∧ ids ≡ₚ player_id <$> all
      else ∃ ids, select_traders limit tb = Some ids ∧
                  length ids = Nat.min (Z.to_nat n) (length all)
  end.
Proof.
  cbv zeta. unfold select_traders.
  assert (Hperm : player_id <$> order_by_last_checked
                    (filter (λ r, active r = 1) (trader_ids tb))
                  ≡ₚ player_id <$> filter (λ r, active r = 1) (trader_ids tb))
    by (by rewrite order_by_last_checked_perm).
  destruct limit as [n|]; [|eauto].
  destruct (n =? 0); [eauto|]. destruct (negb (int64 n)); [done|].
  destruct (n <? 0); [eauto|]. eexists. split; [done|].
  rewrite length_take, length_fmap.
  by rewrite (Permutation_length (order_by_last_checked_perm _)).
Qed.

(** ** What a scan requests *)

Lemma scan_events_run (e : env) (limit : option Z) (s : scanner) :
  ∃ evs,
    scan_events e limit s = EvCatalogRequest :: evs ∧
    contacted (scan_events e limit s) = contacted evs ∧
    pace_events (scan_events e limit s) = paced (contacted evs) ∧
    contacted evs `prefix_of` selected limit (cur (conn s)) ∧
    ((scan e limit s).2 = true →
       select_traders limit (cur (conn s)) = Some (contacted evs) ∧
       concat (stores (scan_events e limit s))
       = contacted evs ≫= fetched e (_fetch_items_metadata e s).1) ∧
    Forall2 (row_after e (contacted evs))
      (trader_ids (cur (conn s))) (trader_ids (cur (conn (scan e limit s).1))).
Proof.
  destruct (scan_run e limit s) as (done & evs & Htr & Hcon & Hpace & Hpre & Hok & Hrows).
  exists evs. unfold scan_events. rewrite Htr, drop_app_length. subst done.
  split; [done|]. split; [done|]. split; [exact Hpace|]. split; [done|].
  split; [|done]. intros Hres. destruct (Hok Hres) as [Hsel Hw]. by split.
Qed.

(** X6: a scan asks for the catalog first; after that its bazaar requests
    and its pauses alternate, with a pause between two requests and none
    before the first or after the last request, whether the scan completes
    or is stopped. *)
Theorem scan_request_pacing (e : env) (limit : option Z) (s : scanner) :
  head (scan_events e limit s) = Some EvCatalogRequest ∧
  pace_events (scan_events e limit s) = paced (contacted (scan_events e limit s)).
Proof.
  destruct (scan_events_run e limit s) as (evs & Hev & Hcon & Hpace & _).
  split; [by rewrite Hev|]. by rewrite Hcon.
Qed.

(** X7: with a positive limit [n], a scan requests the bazaar of at most
    [n] players. *)
Theorem scan_requests_within_limit (e : env) (n : Z) (s : scanner) :
  0 < n → Z.of_nat (length (contacted (scan_events e (Some n) s))) ≤ n.
Proof.
  intros Hn.
  destruct (scan_events_run e (Some n) s) as (evs & _ & -> & _ & Hpre & _).
  apply prefix_length in Hpre. unfold selected, select_traders in Hpre.
  destruct (n =? 0) eqn:Hz; [lia|].
  destruct (int64 n); simpl in Hpre; [|lia].
  destruct (n <? 0) eqn:Hneg; [lia|]. simpl in Hpre.
  rewrite length_take in Hpre. lia.
Qed.

Lemma scan_requests_within_limit_witness :
  Z.of_nat (length (contacted (scan_events bare_env (Some 2) (fresh_scanner mixed_traders))))
  ≤ 2.
Proof.
  apply (scan_requests_within_limit bare_env 2 (fresh_scanner mixed_traders)). lia.
Defined.

Lemma select_traders_active (limit : option Z) (tb : tables) (ids : list Z) (player : Z) :
  select_traders limit tb = Some ids → player ∈ ids →
  ∃ r, r ∈ trader_ids tb ∧ player_id r = player ∧ active r = 1.
Proof.
  intros Hsel Hin.
  destruct (select_traders_rows_of limit tb ids Hsel) as (rows & -> & Hsub & Hact & _).
  apply list_elem_of_fmap in Hin as (r & -> & Hr). exists r.
  split; [by eapply elem_of_submseteq|]. split; [done|].
  by eapply Forall_forall in Hact.
Qed.

(** X8: when the key column of [trader_ids] holds distinct values, a scan
    requests no player twice, and every player it requests has a row whose
    [active] flag was 1 when the scan began. *)
Theorem scan_requests_active_once (e : env) (limit : option Z) (s : scanner) :
  NoDup (player_id <$> trader_ids (cur (conn s))) →
  NoDup (contacted (scan_events e limit s)) ∧
  ∀ player, player ∈ contacted (scan_events e limit s) →
    ∃ r, r ∈ trader_ids (cur (conn s)) ∧ player_id r = player ∧ active r = 1.
Proof.
  intros Hkey.
  destruct (scan_events_run e limit s) as (evs & _ & -> & _ & [k Hpre] & _).
  unfold selected in Hpre.
  destruct (select_traders limit (cur (conn s))) as [ids|] eqn:Hsel; simpl in Hpre.
  - subst ids. pose proof (select_traders_NoDup _ _ _ Hkey Hsel) as Hnd.
    apply NoDup_app in Hnd as (Hnd & _). split; [done|].
    intros player Hin. eapply select_traders_active; [exact Hsel|].
    apply elem_of_app. by left.
  - symmetry in Hpre. apply app_eq_nil in Hpre as [-> _].
    split; [constructor|]. intros player Hin. by apply elem_of_nil in Hin.
Qed.

Lemma scan_requests_active_once_witness :
  NoDup (contacted (scan_events bare_env None (fresh_scanner mixed_traders))) ∧
  ∀ player, player ∈ contacted (scan_events bare_env None (fresh_scanner mixed_traders)) →
    ∃ r, r ∈ trader_ids (cur (conn (fresh_scanner mixed_traders))) ∧
         player_id r = player ∧ active r = 1.
Proof.
  apply (scan_requests_active_once bare_env None (fresh_scanner mixed_traders)).
  vm_compute. repeat constructor; rewrite ?elem_of_cons, ?elem_of_nil; intuition lia.
Defined.

(** X9: a scan that completes has requested exactly the selected players,
    in the order of the selection, and has handed every listing it fetched
    to the listing writer exactly once, in the order of the fetches. *)
Theorem completed_scan_writes_all (e : env) (limit : option Z) (s : scanner) :
  (scan e limit s).2 = true →
  select_traders limit (cur (conn s)) = Some (contacted (scan_events e limit s)) ∧
  concat (stores (scan_events e limit s))
  = contacted (scan_events e limit s) ≫= fetched e (_fetch_items_metadata e s).1.
Proof.
  intros Hok.
  destruct (scan_events_run e limit s) as (evs & _ & -> & _ & _ & Hdone & _).
  by apply Hdone.
Qed.

Lemma completed_scan_writes_all_witness :
  let e := bare_env in
  let s := fresh_scanner many_traders in
  select_traders None (cur (conn s)) = Some (contacted (scan_events e None s)) ∧
  concat (stores (scan_events e None s))
  = contacted (scan_events e None s) ≫= fetched e (_fetch_items_metadata e s).1.
Proof.
  apply (completed_scan_writes_all bare_env None (fresh_scanner many_traders)).
  vm_compute. reflexivity.
Defined.

(** X10: a scan adds and removes no trader row and changes no player
    identifier. It clears the [active] flag of exactly the players it
    requested whose answer carried error code 6, stamps [last_checked] for
    the players it requested whose request was answered, and leaves the flag
    and the stamp of every other row as they were. *)
Theorem trader_rows_after_scan (e : env) (limit : option Z) (s : scanner) :
  Forall2 (row_after e (contacted (scan_events e limit s)))
    (trader_ids (cur (conn s))) (trader_ids (cur (conn (scan e limit s).1))).
Proof.
  destruct (scan_events_run e limit s) as (evs & _ & -> & _ & _ & _ & Hrows). done.
Qed.

(** X11: a player whose answer carried error code 6 during a scan is not
    selected again, whatever the limit of the later selection. *)
Theorem not_found_never_selected_again (e : env) (limit limit' : option Z)
    (s : scanner) (player : Z) (ids' : list Z) :
  player ∈ contacted (scan_events e limit s) →
  not_found e player = true →
  select_traders limit' (cur (conn (scan e limit s).1)) = Some ids' →
  player ∉ ids'.
Proof.
  intros Hreq Hnf Hsel Hin.
  destruct (select_traders_active _ _ _ _ Hsel Hin) as (r' & Hr' & Hid & Hact).
  destruct (scan_events_run e limit s) as (evs & _ & Hcon & _ & _ & _ & Hrows).
  rewrite Hcon in Hreq.
  apply list_elem_of_lookup in Hr' as [i Hi].
  destruct (Forall2_lookup_r _ _ _ _ _ Hrows Hi) as (r & _ & Hid' & Hflag & _).
  rewrite Hid in Hid'. rewrite <- Hid', bool_decide_eq_true_2, Hnf in Hflag by done.
  simpl in Hflag. lia.
Qed.

Lemma not_found_never_selected_again_witness :
  (2222222 ∉ @nil Z) ∧
  select_traders None
    (cur (conn (scan (error_env 6) None (fresh_scanner (one_trader 2222222))).1))
  = Some [].
Proof.
  split; [|vm_compute; reflexivity].
  apply (not_found_never_selected_again (error_env 6) None None
           (fresh_scanner (one_trader 2222222)) 2222222 []).
  - vm_compute. apply list_elem_of_here.
  - vm_compute. reflexivity.
  - vm_compute. reflexivity.
Defined.

(** ** The record of a scan *)

Lemma update_scan_last (id : Z) (f : scan_row → scan_row) (old : list scan_row)
    (row : scan_row) (seq : Z) (tb : tables) :
  scan_history tb = old ++ [row] → sh_id row = id →
  Forall (λ i, i < id) (sh_id <$> old) →
  scan_history (update_scan (Some id) f tb) = old ++ [f row].
Proof.
  intros Hh Hid Hold. unfold update_scan. simpl. rewrite Hh, fmap_app.
  rewrite update_scan_other by done. simpl.
  by rewrite bool_decide_eq_true_2 by (by rewrite Hid).
Qed.

Lemma start_scan_opens (e : env) (s : scanner) :
  let id := next_scan_id (cur (conn s)) in
  scan_id (_start_scan e s) = Some id ∧
  scan_history (cur (conn (_start_scan e s)))
  = scan_history (cur (conn s)) ++ [running_row id (now e (ticks s))] ∧
  Forall (λ i, i < id) (sh_id <$> scan_history (cur (conn s))) ∧
  (0 ≤ scan_history_seq (cur (conn s)) → id ≠ 0).
Proof.
  cbv zeta. unfold next_scan_id.
  destruct (next_rowid_above (scan_history_seq (cur (conn s)))
              (sh_id <$> scan_history (cur (conn s)))) as [Hlt Hall].
  repeat split; try done. lia.
Qed.

Lemma end_scan_closes (e : env) (n m : Z) (s : scanner) (id : Z) (t0 : timestamp)
    (old : list scan_row) :
  scan_id s = Some id →
  scan_history (cur (conn s)) = old ++ [running_row id t0] →
  Forall (λ i, i < id) (sh_id <$> old) →
  scan_history (cur (conn (_end_scan e n m s)))
  = old ++ [closed_row id t0 (now e (ticks s)) n m "completed"] ∧
  durable (conn (_end_scan e n m s)) = cur (conn (_end_scan e n m s)).
Proof.
  intros Hid Hh Hold. unfold _end_scan, read_clock. cbn -[update_scan]. rewrite Hid.
  split; [|done].
  by rewrite (update_scan_last id _ old (running_row id t0) 0).
Qed.

Lemma mark_failed_closes (e : env) (s : scanner) (id : Z) (t0 : timestamp)
    (old : list scan_row) :
  scan_id s = Some id → id ≠ 0 →
  scan_history (cur (conn s)) = old ++ [running_row id t0] →
  Forall (λ i, i < id) (sh_id <$> old) →
  scan_history (cur (conn (mark_failed e s)))
  = old ++ [closed_row id t0 (now e (ticks s)) 0 0 "failed"] ∧
  durable (conn (mark_failed e s)) = cur (conn (mark_failed e s)).
Proof.
  intros Hid Hnz Hh Hold. unfold mark_failed, read_clock. rewrite Hid.
  destruct (id =? 0) eqn:Hz; [lia|]. cbn -[update_scan]. rewrite ?Hid.
  split; [|done].
  by rewrite (update_scan_last id _ old (running_row id t0) 0).
Qed.

(** The record left by a scan whose catalog refresh succeeded, path by
    path. *)
Lemma scan_record (e : env) (limit : option Z) (s : scanner) :
  (_fetch_items_metadata e s).2 = true →
  let s1 := (_fetch_items_metadata e s).1 in
  let old := scan_history (cur (conn s)) in
  let id := next_scan_id (cur (conn s)) in
  let t0 := now e (ticks s1) in
  let final := (scan e limit s).1 in
  ∃ t1,
    ((scan e limit s).2 = true ∧
     ∃ ids, select_traders limit (cur (conn s)) = Some ids ∧ ids ≠ [] ∧
       scan_history (cur (conn final))
       = old ++ [closed_row id t0 t1 (Z.of_nat (length ids))
                   (Z.of_nat (length (ids ≫= fetched e s1))) "completed"] ∧
       durable (conn final) = cur (conn final)) ∨
    ((scan e limit s).2 = false ∧
     select_traders limit (cur (conn s)) = Some [] ∧
     scan_history (cur (conn final)) = old ++ [closed_row id t0 t1 0 0 "completed"] ∧
     durable (conn final) = cur (conn final)) ∨
    ((scan e limit s).2 = false ∧
     select_traders limit (cur (conn s)) ≠ Some [] ∧
     (0 ≤ scan_history_seq (cur (conn s)) →
      scan_history (cur (conn final)) = old ++ [closed_row id t0 t1 0 0 "failed"] ∧
      durable (conn final) = cur (conn final))).
Proof.
  intros Hrefresh. cbv zeta. unfold scan.
  pose proof (fetch_items_metadata_frame e s)
    as (Hrows & _ & _ & Hhist & Hseq & _ & _ & _).
  destruct (_fetch_items_metadata e s) as [s1 ok]. simpl in Hrefresh. subst ok.
  cbn [fst snd negb] in *.
  assert (Hid : next_scan_id (cur (conn s1)) = next_scan_id (cur (conn s)))
    by (unfold next_scan_id; by rewrite Hhist, Hseq).
  destruct (start_scan_opens e s1) as (Hsid & Hopen & Hfresh & Hnz).
  rewrite Hid, Hhist in *. rewrite Hseq in Hnz.
  assert (Hsel : select_traders limit (cur (conn (_start_scan e s1)))
                 = select_traders limit (cur (conn s)))
    by (by apply select_traders_rows).
  set (s2 := _start_scan e s1) in *.
  assert (Hc2 : items_cache s2 = items_cache s1) by done.
  clearbody s2. unfold scan_body. rewrite Hsel.
  destruct (select_traders limit (cur (conn s))) as [[|player rest]|] eqn:Hids.
  - exists (now e (ticks s2)). right. left. cbn [fst snd].
    destruct (end_scan_closes e 0 0 s2 _ _ _ Hsid Hopen Hfresh) as [-> ->]. done.
  - destruct (scan_traders e (player :: rest) no_progress s2) as [[s3 p] ok] eqn:Hrun.
    pose proof (scan_traders_frame e (player :: rest) no_progress s2)
      as (Hf1 & _ & Hf3 & _).
    destruct (scan_traders_run e _ _ _ _ _ _ Hrun)
      as (done & evs & _ & Hall & _ & _ & _ & _ & Hn & Hi & _).
    rewrite Hrun in Hf1, Hf3. cbn [fst snd] in Hf1, Hf3.
    rewrite Hsid in Hf1. rewrite Hopen in Hf3.
    rewrite (fetched_cache e s2 s1) in Hi by done.
    destruct ok; cbn [fst snd negb].
    + specialize (Hall eq_refl). subst done.
      assert (Hfail : ∀ s4 : scanner,
                scan_id s4 = scan_id s3 →
                scan_history (cur (conn s4)) = scan_history (cur (conn s3)) →
                0 ≤ scan_history_seq (cur (conn s)) →
                scan_history (cur (conn (mark_failed e s4)))
                = scan_history (cur (conn s)) ++
                    [closed_row (next_scan_id (cur (conn s))) (now e (ticks s1))
                       (now e (ticks s4)) 0 0 "failed"] ∧
                durable (conn (mark_failed e s4)) = cur (conn (mark_failed e s4))).
      { intros s4 H1 H2 Hpos. apply mark_failed_closes; try done; try congruence.
        by apply Hnz. }
      assert (Hdone : ∀ s4 : scanner,
                scan_id s4 = scan_id s3 →
                scan_history (cur (conn s4)) = scan_history (cur (conn s3)) →
                scan_history (cur (conn (_end_scan e (n_traders p) (n_items p) s4)))
                = scan_history (cur (conn s)) ++
                    [closed_row (next_scan_id (cur (conn s))) (now e (ticks s1))
                       (now e (ticks s4))
                       (Z.of_nat (length (player :: rest)))
                       (Z.of_nat (length ((player :: rest) ≫= fetched e s1))) "completed"] ∧
                durable (conn (_end_scan e (n_traders p) (n_items p) s4))
                = cur (conn (_end_scan e (n_traders p) (n_items p) s4))).
      { intros s4 H1 H2. rewrite Hn, Hi. unfold no_progress. cbn [n_traders n_items].
        rewrite !Z.add_0_l. apply end_scan_closes; congruence. }
      destruct (all_items p) as [|it its]; cbn [fst snd].
      * exists (now e (ticks s3)). left. split; [done|].
        exists (player :: rest). split; [done|]. split; [done|].
        by apply Hdone.
      * pose proof (store_frame e (it :: its) s3) as (_ & Hs1 & _ & _ & Hs2 & _).
        destruct (_store_bazaar_items e (it :: its) s3) as [s4 [|]]; cbn [fst snd] in *.
        -- exists (now e (ticks s4)). left. split; [done|].
           exists (player :: rest). split; [done|]. split; [done|].
           by apply Hdone.
        -- exists (now e (ticks s4)). right. right. split; [done|]. split; [done|].
           by apply Hfail.
    + exists (now e (ticks s3)). right. right. split; [done|]. split; [done|].
      intros Hpos. apply mark_failed_closes; try done. by apply Hnz.
  - exists (now e (ticks s2)). right. right. cbn [fst snd].
    split; [done|]. split; [done|].
    intros Hpos. apply mark_failed_closes; try done. by apply Hnz.
Qed.

(** X1: a scan that returns [True] appends one record to [scan_history] and
    leaves the older records as they were. The record is [completed], has an
    end time, counts every selected trader in [traders_scanned] and every
    listing fetched in [items_found], and is committed. *)
Theorem completed_scan_record (e : env) (limit : option Z) (s : scanner) :
  (scan e limit s).2 = true →
  ∃ ids t1,
    select_traders limit (cur (conn s)) = Some ids ∧ ids ≠ [] ∧
    scan_history (cur (conn (scan e limit s).1))
    = scan_history (cur (conn s)) ++
        [closed_row (next_scan_id (cur (conn s)))
           (now e (ticks (_fetch_items_metadata e s).1)) t1
           (Z.of_nat (length ids))
           (Z.of_nat (length (ids ≫= fetched e (_fetch_items_metadata e s).1)))
           "completed"] ∧
    durable (conn (scan e limit s).1) = cur (conn (scan e limit s).1).
Proof.
  intros Hok.
  destruct (scan_record e limit s (scan_ok_refresh_ok e limit s Hok))
    as (t1 & [(_ & ids & H)|[(Hf & _)|(Hf & _)]]); [|congruence..].
  by exists ids, t1.
Qed.

Lemma completed_scan_record_witness :
  let e := xanax_env in
  let s := fresh_scanner (one_trader 1111111) in
  ∃ ids t1,
    select_traders None (cur (conn s)) = Some ids ∧ ids ≠ [] ∧
    scan_history (cur (conn (scan e None s).1))
    = scan_history (cur (conn s)) ++
        [closed_row (next_scan_id (cur (conn s)))
           (now e (ticks (_fetch_items_metadata e s).1)) t1
           (Z.of_nat (length ids))
           (Z.of_nat (length (ids ≫= fetched e (_fetch_items_metadata e s).1)))
           "completed"] ∧
    durable (conn (scan e None s).1) = cur (conn (scan e None s).1).
Proof.
  apply (completed_scan_record xanax_env None (fresh_scanner (one_trader 1111111))).
  vm_compute. reflexivity.
Defined.

(** X2: a scan whose catalog refresh succeeds opens exactly one record and
    closes it before it returns, whatever happens in between: the record
    ends [completed] or [failed] with an end time, never [running]; the
    older records are untouched, and everything the scan wrote is
    committed. *)
Theorem scan_closes_its_record (e : env) (limit : option Z) (s : scanner) :
  (_fetch_items_metadata e s).2 = true →
  0 ≤ scan_history_seq (cur (conn s)) →
  ∃ t1 n m st,
    scan_history (cur (conn (scan e limit s).1))
    = scan_history (cur (conn s)) ++
        [closed_row (next_scan_id (cur (conn s)))
           (now e (ticks (_fetch_items_metadata e s).1)) t1 n m st] ∧
    (st = "completed" ∨ st = "failed") ∧
    ((scan e limit s).2 = true → st = "completed") ∧
    (st = "failed" → n = 0 ∧ m = 0) ∧
    durable (conn (scan e limit s).1) = cur (conn (scan e limit s).1).
Proof.
  intros Hrefresh Hseq.
  destruct (scan_record e limit s Hrefresh)
    as (t1 & [(_ & ids & _ & _ & -> & ->)|[(Hf & _ & -> & ->)|(Hf & _ & H)]]).
  - eexists t1, _, _, "completed".
    split; [done|]. split; [by left|]. split; [done|]. split; [discriminate|done].
  - exists t1, 0, 0, "completed".
    split; [done|]. split; [by left|]. split; [done|]. split; [discriminate|done].
  - destruct (H Hseq) as [-> ->].
    exists t1, 0, 0, "failed".
    split; [done|]. split; [by right|]. split; [congruence|]. by split.
Qed.

Lemma scan_closes_its_record_witness :
  let e := null_price_env in
  let s := fresh_scanner (one_trader 5) in
  ∃ t1 n m st,
    scan_history (cur (conn (scan e None s).1))
    = scan_history (cur (conn s)) ++
        [closed_row (next_scan_id (cur (conn s)))
           (now e (ticks (_fetch_items_metadata e s).1)) t1 n m st] ∧
    (st = "completed" ∨ st = "failed") ∧
    ((scan e None s).2 = true → st = "completed") ∧
    (st = "failed" → n = 0 ∧ m = 0) ∧
    durable (conn (scan e None s).1) = cur (conn (scan e None s).1).
Proof.
  apply (scan_closes_its_record null_price_env None (fresh_scanner (one_trader 5))).
  - vm_compute. reflexivity.
  - vm_compute. discriminate.
Defined.

(** X3: when no trader is active, a scan whose catalog refresh succeeded
    requests no bazaar and calls the listing writer not at all; it closes
    its record as [completed] with both counters at 0, and yet returns
    [False]. *)
Theorem scan_without_traders (e : env) (limit : option Z) (s : scanner) :
  (_fetch_items_metadata e s).2 = true →
  select_traders limit (cur (conn s)) = Some [] →
  (scan e limit s).2 = false ∧
  scan_events e limit s = [EvCatalogRequest] ∧
  ∃ t1,
    scan_history (cur (conn (scan e limit s).1))
    = scan_history (cur (conn s)) ++
        [closed_row (next_scan_id (cur (conn s)))
           (now e (ticks (_fetch_items_metadata e s).1)) t1 0 0 "completed"].
Proof.
  intros Hrefresh Hsel.
  destruct (scan_events_run e limit s) as (evs & Hev & _ & Hpace & Hpre & _).
  unfold selected in Hpre. rewrite Hsel in Hpre. simpl in Hpre.
  apply prefix_nil_inv in Hpre.
  destruct (scan_record e limit s Hrefresh)
    as (t1 & [(_ & ids & Hs & Hne & _)|[(Hf & _ & Hh & _)|(_ & Hne & _)]]);
    [congruence| |congruence].
  split; [done|]. split; [|by exists t1].
  assert (Hevs : evs = []).
  { unfold scan_events, scan in *.
    pose proof (fetch_items_metadata_frame e s) as (Hrows & _ & _ & _ & _ & Htr & _).
    destruct (_fetch_items_metadata e s) as [s1 ok]. simpl in Hrefresh. subst ok.
    cbn [fst snd negb] in *. unfold scan_body in Hev.
    rewrite (select_traders_rows limit (cur (conn (_start_scan e s1))) (cur (conn s)))
      in Hev by done.
    rewrite Hsel in Hev. cbn [fst snd] in Hev.
    change (trace (_end_scan e 0 0 (_start_scan e s1))) with (trace s1) in Hev.
    rewrite Htr, drop_app_length in Hev. by injection Hev as <-. }
  by rewrite Hev, Hevs.
Qed.

Lemma scan_without_traders_witness :
  let e := xanax_env in
  let s := fresh_scanner empty_tables in
  (scan e None s).2 = false ∧
  scan_events e None s = [EvCatalogRequest] ∧
  ∃ t1,
    scan_history (cur (conn (scan e None s).1))
    = scan_history (cur (conn s)) ++
        [closed_row (next_scan_id (cur (conn s)))
           (now e (ticks (_fetch_items_metadata e s).1)) t1 0 0 "completed"].
Proof.
  apply (scan_without_traders xanax_env None (fresh_scanner empty_tables));
    vm_compute; reflexivity.
Defined.

(** ** The listing writer, row by row *)

Lemma ids_ok_next (ids : list Z) (seq : Z) :
  NoDup ids → ids_ok (ids ++ [next_rowid seq ids]) (next_rowid seq ids).
Proof.
  intros Hnd. destruct (next_rowid_above seq ids) as [_ Hall]. split.
  - apply NoDup_app. split; [done|]. split; [|apply NoDup_singleton].
    intros i Hi Hin. apply list_elem_of_singleton in Hin.
    eapply Forall_forall in Hall; [|exact Hi]. lia.
  - apply Forall_app. split; [|by repeat constructor].
    eapply Forall_impl; [exact Hall|]. simpl. lia.
Qed.

Lemma ids_ok_sublist (ids ids' : list Z) (seq : Z) :
  ids' `sublist_of` ids → ids_ok ids seq → ids_ok ids' seq.
Proof.
  intros Hsub [Hnd Hall]. split; [by eapply sublist_NoDup|].
  apply Forall_forall. intros i Hi.
  eapply Forall_forall in Hall; [exact Hall|]. by eapply elem_of_sublist.
Qed.

(** The run of the inserts of a batch: the rows added, the listings that
    went in, and the listing that stopped it. *)
Lemma insert_listings_run (t : timestamp) (its : list listing) (tb : tables) :
  ∃ done new_rows,
    listings (insert_listings t its tb).1 = listings tb ++ new_rows ∧
    row_item <$> new_rows = done ∧
    Forall (λ r, row_timestamp r = t ∧ listings_seq tb < row_id r) new_rows ∧
    Forall (λ it, insertable it = true) done ∧
    ((insert_listings t its tb).2 = true → done = its) ∧
    ((insert_listings t its tb).2 = false →
       ∃ bad rest, its = done ++ bad :: rest ∧ insertable bad = false).
Proof.
  revert tb. induction its as [|it rest IH]; intros tb; simpl.
  { exists [], []. rewrite app_nil_r. repeat split; done. }
  destruct (insertable it) eqn:Hins; simpl.
  2:{ exists [], []. rewrite app_nil_r. repeat split; try done.
      intros _. by exists it, rest. }
  destruct (IH (insert_listing t it tb))
    as (done & new_rows & Hl & Hitems & Hnew & Hdone & Hok & Hbad).
  set (id := next_rowid (listings_seq tb) (row_id <$> listings tb)) in *.
  destruct (next_rowid_above (listings_seq tb) (row_id <$> listings tb)) as [Hlt Hall].
  fold id in Hlt, Hall.
  exists (it :: done),
    ({| row_id := id; row_item := it; row_timestamp := t |} :: new_rows).
  split; [rewrite Hl; simpl; by rewrite <- app_assoc|].
  split; [by rewrite fmap_cons, Hitems|].
  split.
  { constructor; [done|]. eapply Forall_impl; [exact Hnew|].
    simpl. intros r [Ht Hr]. split; [done|]. fold id in Hr. lia. }
  split; [by constructor|].
  split; [intros Hres; by rewrite (Hok Hres)|].
  intros Hres. destruct (Hbad Hres) as (bad & rest' & -> & Hb). by exists bad, rest'.
Qed.

(** The inserts keep the row identifiers distinct and below the sequence
    value. *)
Lemma insert_listings_ids_ok (t : timestamp) (its : list listing) (tb : tables) :
  ids_ok (row_id <$> listings tb) (listings_seq tb) →
  ids_ok (row_id <$> listings (insert_listings t its tb).1)
    (listings_seq (insert_listings t its tb).1).
Proof.
  revert tb. induction its as [|it rest IH]; intros tb Hok; simpl; [done|].
  destruct (insertable it); simpl; [|done].
  apply IH. simpl. rewrite fmap_app. simpl. apply ids_ok_next. by destruct Hok.
Qed.

Lemma filter_no_sellers (its : list listing) (rows : list listing_row) :
  its = [] → filter (λ r, seller_id (row_item r) ∉ batch_sellers its) rows = rows.
Proof.
  intros ->. induction rows as [|r rows IH]; [done|].
  rewrite filter_cons_True, IH; [done|]. unfold batch_sellers. simpl.
  apply not_elem_of_empty.
Qed.

(** X12: a write that does not raise deletes the rows of exactly the
    sellers of the batch, keeps every other row, and appends one row per
    listing of the batch in the order of the batch; the new rows carry the
    time read at the start of the write and identifiers above every
    identifier used so far; the result is committed. *)
Theorem store_replaces_rows (e : env) (its : list listing) (s : scanner) :
  (_store_bazaar_items e its s).2 = true →
  let s' := (_store_bazaar_items e its s).1 in
  ∃ new_rows,
    listings (cur (conn s'))
    = filter (λ r, seller_id (row_item r) ∉ batch_sellers its) (listings (cur (conn s)))
      ++ new_rows ∧
    row_item <$> new_rows = its ∧
    Forall (λ r, row_timestamp r = now e (ticks s) ∧
                 listings_seq (cur (conn s)) < row_id r) new_rows ∧
    durable (conn s') = cur (conn s').
Proof.
  unfold _store_bazaar_items, read_clock. cbn [fst snd emit ticks conn].
  set (tb1 := match its with
              | [] => cur (conn s)
              | _ => delete_sellers (list_to_set (seller_id <$> its)) (cur (conn s))
              end).
  assert (Htb1 : listings tb1
                 = filter (λ r, seller_id (row_item r) ∉ batch_sellers its)
                     (listings (cur (conn s))) ∧
                 listings_seq tb1 = listings_seq (cur (conn s))).
  { unfold tb1. destruct its; [|done].
    split; [symmetry; by apply filter_no_sellers|done]. }
  destruct Htb1 as [Hrows Hseq].
  destruct (insert_listings_run (now e (ticks s)) its tb1)
    as (done & new_rows & Hl & Hitems & Hnew & _ & Hok & _).
  destruct (insert_listings (now e (ticks s)) its tb1) as [tb2 [|]];
    cbn [fst snd] in *; [|done].
  intros _. exists new_rows. rewrite <- Hrows, <- Hseq.
  split; [done|]. split; [by rewrite Hitems, Hok|]. by split.
Qed.

Lemma store_replaces_rows_witness :
  let e := xanax_env in
  let s := fresh_scanner (stocked_tables 1111111) in
  let s' := (_store_bazaar_items e [xanax_listing] s).1 in
  ∃ new_rows,
    listings (cur (conn s'))
    = filter (λ r, seller_id (row_item r) ∉ batch_sellers [xanax_listing])
        (listings (cur (conn s)))
      ++ new_rows ∧
    row_item <$> new_rows = [xanax_listing] ∧
    Forall (λ r, row_timestamp r = now e (ticks s) ∧
                 listings_seq (cur (conn s)) < row_id r) new_rows ∧
    durable (conn s') = cur (conn s').
Proof.
  apply (store_replaces_rows xanax_env [xanax_listing]
           (fresh_scanner (stocked_tables 1111111))).
  vm_compute. reflexivity.
Defined.

(** X13: a write that raises commits nothing itself, but it is not undone:
    the rows of the sellers of the batch are already deleted from the
    working tables, and the listings that precede the one that cannot be
    inserted are already in. *)
Theorem store_failure_is_partial (e : env) (its : list listing) (s : scanner) :
  (_store_bazaar_items e its s).2 = false →
  let s' := (_store_bazaar_items e its s).1 in
  durable (conn s') = durable (conn s) ∧
  ∃ done bad rest,
    its = done ++ bad :: rest ∧
    insertable bad = false ∧
    Forall (λ it, insertable it = true) done ∧
    row_item <$> listings (cur (conn s'))
    = (row_item <$> filter (λ r, seller_id (row_item r) ∉ batch_sellers its)
                      (listings (cur (conn s))))
      ++ done.
Proof.
  unfold _store_bazaar_items, read_clock. cbn [fst snd emit ticks conn].
  set (tb1 := match its with
              | [] => cur (conn s)
              | _ => delete_sellers (list_to_set (seller_id <$> its)) (cur (conn s))
              end).
  assert (Hrows : listings tb1
                  = filter (λ r, seller_id (row_item r) ∉ batch_sellers its)
                      (listings (cur (conn s)))).
  { unfold tb1. destruct its; [|done]. symmetry. by apply filter_no_sellers. }
  destruct (insert_listings_run (now e (ticks s)) its tb1)
    as (done & new_rows & Hl & Hitems & _ & Hdone & _ & Hbad).
  destruct (insert_listings (now e (ticks s)) its tb1) as [tb2 [|]];
    cbn [fst snd] in *; [done|].
  intros _. split; [done|].
  destruct (Hbad eq_refl) as (bad & rest & Hits & Hb).
  exists done, bad, rest. split; [done|]. split; [done|]. split; [done|].
  cbn [with_conn with_cur conn cur]. by rewrite Hl, fmap_app, Hitems, Hrows.
Qed.

Lemma store_failure_is_partial_witness :
  let e := null_price_env in
  let s := fresh_scanner (stocked_tables 5) in
  let its := fetched e s 5 in
  let s' := (_store_bazaar_items e its s).1 in
  durable (conn s') = durable (conn s) ∧
  ∃ done bad rest,
    its = done ++ bad :: rest ∧
    insertable bad = false ∧
    Forall (λ it, insertable it = true) done ∧
    row_item <$> listings (cur (conn s'))
    = (row_item <$> filter (λ r, seller_id (row_item r) ∉ batch_sellers its)
                      (listings (cur (conn s))))
      ++ done.
Proof.
  apply (store_failure_is_partial null_price_env
           (fetched null_price_env (fresh_scanner (stocked_tables 5)) 5)
           (fresh_scanner (stocked_tables 5))).
  vm_compute. reflexivity.
Defined.

(** ** The keys of the tables *)

Lemma row_ids_ok_frame (tb tb' : tables) :
  listings tb' = listings tb → listings_seq tb' = listings_seq tb →
  scan_history tb' = scan_history tb → scan_history_seq tb' = scan_history_seq tb →
  row_ids_ok tb → row_ids_ok tb'.
Proof. unfold row_ids_ok. by intros -> -> -> ->. Qed.

Lemma update_scan_ids (sid : option Z) (f : scan_row → scan_row) (tb : tables) :
  (∀ r, sh_id (f r) = sh_id r) →
  row_ids_ok tb → row_ids_ok (update_scan sid f tb).
Proof.
  intros Hf [Hl Hh]. split; [done|]. unfold update_scan. simpl.
  rewrite <- list_fmap_compose.
  assert (Hsame : sh_id ∘ (λ r, if bool_decide (Some (sh_id r) = sid) then f r else r)
                    <$> scan_history tb
                  = sh_id <$> scan_history tb).
  { apply list_fmap_ext. intros i r _. simpl. by case_bool_decide. }
  by rewrite Hsame.
Qed.

Lemma end_scan_ids (e : env) (n m : Z) (s : scanner) :
  row_ids_ok (cur (conn s)) → row_ids_ok (cur (conn (_end_scan e n m s))).
Proof. intros Hok. unfold _end_scan, read_clock. cbn -[update_scan]. by apply update_scan_ids. Qed.

Lemma mark_failed_ids (e : env) (s : scanner) :
  row_ids_ok (cur (conn s)) → row_ids_ok (cur (conn (mark_failed e s))).
Proof.
  intros Hok. unfold mark_failed, read_clock.
  destruct (scan_id s) as [id|]; [|done]. destruct (id =? 0); [done|].
  cbn -[update_scan]. by apply update_scan_ids.
Qed.

Lemma start_scan_ids (e : env) (s : scanner) :
  row_ids_ok (cur (conn s)) → row_ids_ok (cur (conn (_start_scan e s))).
Proof.
  intros [Hl [Hnd _]]. split; [done|]. simpl. rewrite fmap_app. simpl.
  by apply ids_ok_next.
Qed.

Lemma store_ids (e : env) (its : list listing) (s : scanner) :
  row_ids_ok (cur (conn s)) → row_ids_ok (cur (conn (_store_bazaar_items e its s).1)).
Proof.
  intros [Hl Hh]. split.
  - unfold _store_bazaar_items, read_clock. cbn [fst snd emit ticks conn].
    set (tb1 := match its with
                | [] => cur (conn s)
                | _ => delete_sellers (list_to_set (seller_id <$> its)) (cur (conn s))
                end).
    assert (Htb1 : ids_ok (row_id <$> listings tb1) (listings_seq tb1)).
    { unfold tb1. destruct its; [done|]. simpl.
      eapply ids_ok_sublist; [|exact Hl]. apply fmap_sublist, sublist_filter. }
    pose proof (insert_listings_ids_ok (now e (ticks s)) its tb1 Htb1) as Hins.
    by destruct (insert_listings (now e (ticks s)) its tb1) as [tb2 [|]].
  - pose proof (store_frame e its s) as (_ & _ & _ & _ & -> & ->). done.
Qed.

Lemma fetch_ids (e : env) (player : Z) (s : scanner) :
  row_ids_ok (cur (conn s)) → row_ids_ok (cur (conn (_get_player_bazaar e player s).1)).
Proof.
  apply row_ids_ok_frame; [apply fetch_listings|apply fetch_listings_seq|
                           apply fetch_scan_history|fetch_cases].
Qed.

Lemma scan_traders_ids (e : env) (ids : list Z) (p : progress) (s : scanner) :
  row_ids_ok (cur (conn s)) → row_ids_ok (cur (conn (scan_traders e ids p s).1.1)).
Proof.
  revert p s. induction ids as [|player rest IH]; intros p s Hok; [done|].
  cbn [scan_traders all_items n_traders n_items].
  pose proof (fetch_ids e player s Hok) as Hf.
  destruct (_get_player_bazaar e player s) as [s1 its]. cbn [fst snd] in *.
  destruct (pause_frame rest s1) as (Hp1 & _).
  destruct (100 <=? Z.of_nat (length (all_items p ++ its))).
  - pose proof (store_ids e (all_items p ++ its) s1 Hf) as Hst.
    destruct (_store_bazaar_items e (all_items p ++ its) s1) as [s2 [|]];
      cbn [fst snd] in *; [|done].
    destruct (pause_frame rest s2) as (Hq1 & _). apply IH. by rewrite Hq1.
  - apply IH. by rewrite Hp1.
Qed.

(** X14: a scan keeps the key columns sound: when, before the scan, the
    player identifiers of [trader_ids] are distinct and the generated row
    identifiers of [listings] and [scan_history] are distinct and not above
    their sequence values, the same holds after the scan, whatever its
    outcome. *)
Theorem scan_keeps_keys (e : env) (limit : option Z) (s : scanner) :
  keys_ok (cur (conn s)) → keys_ok (cur (conn (scan e limit s).1)).
Proof.
  intros [Hkey Hids]. split; [by rewrite (proj1 (scan_frame e limit s))|].
  change (row_ids_ok (cur (conn (scan e limit s).1))).
  change (row_ids_ok (cur (conn s))) in Hids.
  unfold scan.
  pose proof (fetch_items_metadata_frame e s) as (_ & H1 & H2 & H3 & H4 & _).
  pose proof (row_ids_ok_frame _ _ H1 H2 H3 H4 Hids) as Hs1.
  destruct (_fetch_items_metadata e s) as [s1 [|]]; cbn [fst snd negb] in *; [|done].
  pose proof (start_scan_ids e s1 Hs1) as Hs2.
  generalize dependent (_start_scan e s1). intros s2 Hs2.
  unfold scan_body.
  destruct (select_traders limit (cur (conn s2))) as [[|player rest]|]; cbn [fst snd].
  - by apply end_scan_ids.
  - pose proof (scan_traders_ids e (player :: rest) no_progress s2 Hs2) as Hs3.
    destruct (scan_traders e (player :: rest) no_progress s2) as [[s3 p] [|]];
      cbn [fst snd negb] in *; [|by apply mark_failed_ids].
    destruct (all_items p) as [|it its]; cbn [fst snd]; [by apply end_scan_ids|].
    pose proof (store_ids e (it :: its) s3 Hs3) as Hs4.
    destruct (_store_bazaar_items e (it :: its) s3) as [s4 [|]]; cbn [fst snd] in *;
      [by apply end_scan_ids|by apply mark_failed_ids].
  - by apply mark_failed_ids.
Qed.

Lemma scan_keeps_keys_witness :
  keys_ok (cur (conn (scan xanax_env None (fresh_scanner (stocked_tables 1111111))).1)).
Proof.
  apply (scan_keeps_keys xanax_env None (fresh_scanner (stocked_tables 1111111))).
  vm_compute. repeat split; repeat constructor;
    rewrite ?elem_of_nil; try tauto; try discriminate.
Defined.

(** ** More on the fetch of one player *)

(** X15: a fetch writes to table [trader_ids] only: tables [items],
    [listings] and [scan_history], the cache and the scan identifier are as
    they were, and the clock is read at most once. When the fetch returns
    listings it commits nothing, so the new time stamp of the player stays
    uncommitted until a later commit; when the HTTP exchange raises, the
    connection is untouched. *)
Theorem fetch_frame (e : env) (player : Z) (s : scanner) :
  let s' := (_get_player_bazaar e player s).1 in
  items (cur (conn s')) = items (cur (conn s)) ∧
  listings (cur (conn s')) = listings (cur (conn s)) ∧
  listings_seq (cur (conn s')) = listings_seq (cur (conn s)) ∧
  scan_history (cur (conn s')) = scan_history (cur (conn s)) ∧
  scan_history_seq (cur (conn s')) = scan_history_seq (cur (conn s)) ∧
  items_cache s' = items_cache s ∧
  scan_id s' = scan_id s ∧
  (ticks s ≤ ticks s' ≤ S (ticks s))%nat ∧
  ((_get_player_bazaar e player s).2 ≠ [] → durable (conn s') = durable (conn s)) ∧
  (bazaar_response e player = HttpFail → conn s' = conn s).
Proof.
  cbv zeta.
  split; [fetch_cases|]. split; [apply fetch_listings|].
  split; [apply fetch_listings_seq|]. split; [apply fetch_scan_history|].
  split; [fetch_cases|]. split; [apply fetch_items_cache|].
  split; [apply fetch_scan_id|]. split; [fetch_cases; lia|]. split.
  - unfold _get_player_bazaar, read_clock. simpl.
    repeat case_match; simpl; intros Hne; try done; by destruct Hne.
  - intros Hfail. unfold _get_player_bazaar. by rewrite Hfail.
Qed.

Lemma fetch_frame_witness :
  let r := _get_player_bazaar xanax_env 1111111 xanax_scanner in
  (r.2 ≠ [] → durable (conn r.1) = durable (conn xanax_scanner)) ∧
  last_checked <$> trader_ids (cur (conn r.1)) = [Some 1] ∧
  last_checked <$> trader_ids (durable (conn r.1)) = [None].
Proof.
  split; [|vm_compute; by split].
  apply (fetch_frame xanax_env 1111111 xanax_scanner).
Defined.




(** X17: every listing returned by a fetch names the fetched player as its
    seller, and all of them carry the same seller name: the [name] of the
    answer when it has one, else ["Player "] followed by the player's
    identifier. *)
Theorem fetch_seller_fields (e : env) (player : Z) (s : scanner) (its : list listing) :
  (_get_player_bazaar e player s).2 = its → its ≠ [] →
  ∃ d,
    bazaar_response e player = HttpJson (JDict d) ∧
    Forall (λ it, seller_id it = player ∧
                  seller_name it
                  = get_default "name" d (JStr ("Player " +:+ pretty player))) its.
Proof.
  intros Hres Hne.
  destruct (fetch_listings_inv e player s its Hres Hne)
    as (d & entries & Hresp & _ & _ & Hm).
  exists d. split; [done|]. apply mapM_Some_1 in Hm. clear Hres Hne.
  induction Hm as [|entry it entries its' Hit Hm IH]; [constructor|].
  constructor; [|done].
  unfold bazaar_item in Hit. repeat case_match; try discriminate.
  by injection Hit as <-.
Qed.

Lemma fetch_seller_fields_witness :
  ∃ d,
    bazaar_response xanax_env 1111111 = HttpJson (JDict d) ∧
    Forall (λ it, seller_id it = 1111111 ∧
                  seller_name it
                  = get_default "name" d (JStr ("Player " +:+ pretty 1111111)))
      [xanax_listing].
Proof.
  apply (fetch_seller_fields xanax_env 1111111 xanax_scanner [xanax_listing]);
    [vm_compute; reflexivity|discriminate].
Defined.

(** ** More on the catalog refresh *)

Lemma cache_items_table (e : env) (entries : list (string * json)) (s : scanner) (k : Z) :
  (cache_items e entries s).2 = true →
  match foldl cache_step ∅ entries !! k with
  | Some c => ∃ t, items (cur (conn (cache_items e entries s).1)) !! k
                   = Some (item_row_of c t)
  | None => items (cur (conn (cache_items e entries s).1)) !! k
            = items (cur (conn s)) !! k
  end.
Proof.
  revert s. induction entries as [|[key v] rest IH]; intros s; simpl.
  { by rewrite lookup_empty. }
  unfold cache_step at 2. simpl.
  destruct (py_int key) as [id|]; [|discriminate].
  destruct v as [| | | | |d]; try discriminate.
  unfold replace_item. destruct (storable (catalog_entry id d)); [|discriminate].
  intros Hok. specialize (IH _ Hok). rewrite cache_step_lookup.
  destruct (foldl cache_step ∅ rest !! k) as [c|]; [exact IH|].
  rewrite IH. simpl. destruct (decide (id = k)) as [->|Hne].
  - rewrite !lookup_insert_eq. by eexists.
  - by rewrite !lookup_insert_ne, lookup_empty.
Qed.

(** X18: a refresh that succeeds merges the payload into the cache: an item
    of the payload replaces the cached item with the same identifier, and
    cached items that the payload does not mention are kept, not dropped.
    Every item of the payload is written to table [items] with the cached
    fields, rows of [items] outside the payload are untouched, and the
    result is committed. *)
Theorem refresh_success (e : env) (s : scanner) :
  (_fetch_items_metadata e s).2 = true →
  let s' := (_fetch_items_metadata e s).1 in
  (∀ k, items_cache s' !! k
        = match catalog_map e !! k with
          | Some c => Some c
          | None => items_cache s !! k
          end) ∧
  (∀ k, match catalog_map e !! k with
        | Some c => ∃ t, items (cur (conn s')) !! k = Some (item_row_of c t)
        | None => items (cur (conn s')) !! k = items (cur (conn s)) !! k
        end) ∧
  durable (conn s') = cur (conn s').
Proof.
  intros Hok. cbv zeta. split.
  { intros k. rewrite (refresh_cache e s Hok). apply cache_step_lookup. }
  revert Hok. unfold _fetch_items_metadata, catalog_map, catalog_entries.
  destruct (catalog_response e) as [|data]; [discriminate|].
  destruct (py_in "items" data) as [[|]|]; try discriminate.
  destruct (py_getitem "items" data) as [[| | | | |entries]|]; try discriminate.
  pose proof (λ k, cache_items_table e entries (emit EvCatalogRequest s) k) as Htab.
  destruct (cache_items e entries (emit EvCatalogRequest s)) as [s1 [|]];
    simpl in *; [|discriminate].
  intros _. split; [|done]. intros k. by apply Htab.
Qed.

Lemma refresh_success_witness :
  let e := xanax_env in
  let s := fresh_scanner empty_tables in
  let s' := (_fetch_items_metadata e s).1 in
  (∀ k, items_cache s' !! k
        = match catalog_map e !! k with
          | Some c => Some c
          | None => items_cache s !! k
          end) ∧
  (∀ k, match catalog_map e !! k with
        | Some c => ∃ t, items (cur (conn s')) !! k = Some (item_row_of c t)
        | None => items (cur (conn s')) !! k = items (cur (conn s)) !! k
        end) ∧
  durable (conn s') = cur (conn s').
Proof.
  apply (refresh_success xanax_env (fresh_scanner empty_tables)).
  vm_compute. reflexivity.
Defined.

Lemma catalog_lookup_unique (entries : list (string * json)) (key : string)
    (d : list (string * json)) (id : Z) :
  py_int key = Some id →
  (∀ entry, entry ∈ entries → py_int entry.1 = Some id → entry = (key, JDict d)) →
  foldl cache_step ∅ entries !! id = Some (catalog_entry id d) ∨
  (foldl cache_step ∅ entries !! id = None ∧ (key, JDict d) ∉ entries).
Proof.
  intros Hkey. induction entries as [|entry rest IH]; intros Huniq.
  { right. split; [apply lookup_empty|apply not_elem_of_nil]. }
  simpl. rewrite cache_step_lookup.
  destruct IH as [->|[-> Hout]]; [intros ? ?; apply Huniq; by right|by left|].
  unfold cache_step.
  destruct (py_int entry.1) as [id'|] eqn:Hk.
  - destruct (entry.2) as [| | | | |d'] eqn:Hv.
    6:{ destruct (decide (id' = id)) as [->|Hne].
        - left. rewrite lookup_insert_eq.
          assert (Heq : entry = (key, JDict d)) by (apply Huniq; [by left|done]).
          rewrite Heq in Hv. simpl in Hv. by injection Hv as ->.
        - right. rewrite lookup_insert_ne, lookup_empty by done. split; [done|].
          intros Hin. apply elem_of_cons in Hin as [Heq|?]; [|done].
          rewrite <- Heq in Hk. simpl in Hk. congruence. }
    all: right; split; [apply lookup_empty|];
      intros Hin; apply elem_of_cons in Hin as [Heq|?]; [|done];
      rewrite <- Heq in Hv; discriminate.
  - right. split; [apply lookup_empty|].
    intros Hin. apply elem_of_cons in Hin as [Heq|?]; [|done].
    rewrite <- Heq in Hk. simpl in Hk. congruence.
Qed.

(** X19: after a refresh that succeeds, an item that the payload lists once
    is cached under the number parsed from its key, with the name of the
    entry or ["Unknown"], with the [type] of the entry or ["Miscellaneous"]
    as its category, with the market value of the entry or [0], and with the
    first non-empty of [weapon_type] and [drug_type], else [""], as its
    type. *)
Theorem refresh_caches_item (e : env) (s : scanner) (key : string)
    (d : list (string * json)) (id : Z) :
  (_fetch_items_metadata e s).2 = true →
  (key, JDict d) ∈ catalog_entries e →
  py_int key = Some id →
  (∀ entry, entry ∈ catalog_entries e → py_int entry.1 = Some id →
            entry = (key, JDict d)) →
  ∃ c,
    items_cache (_fetch_items_metadata e s).1 !! id = Some c ∧
    ci_id c = id ∧
    ci_name c = get_default "name" d (JStr "Unknown") ∧
    ci_category c = get_default "type" d (JStr "Miscellaneous") ∧
    ci_market_value c = get_default "market_value" d (JInt 0) ∧
    ci_type c
    = (if truthy (get_default "weapon_type" d (JStr ""))
       then get_default "weapon_type" d (JStr "")
       else if truthy (get_default "drug_type" d (JStr ""))
            then get_default "drug_type" d (JStr "")
            else JStr "").
Proof.
  intros Hok Hin Hkey Huniq. exists (catalog_entry id d).
  split; [|repeat split].
  - rewrite (refresh_cache e s Hok), cache_step_lookup.
    destruct (catalog_lookup_unique _ key d id Hkey Huniq) as [->|[_ Hout]];
      [done|by destruct Hout].
  - unfold catalog_entry, py_or. cbn [ci_type].
    destruct (truthy (get_default "weapon_type" d (JStr ""))) eqn:Hw;
      cbv beta iota; rewrite ?Hw; [done|].
    by destruct (truthy (get_default "drug_type" d (JStr ""))).
Qed.

Lemma refresh_caches_item_witness :
  ∃ c,
    items_cache (_fetch_items_metadata xanax_env (fresh_scanner empty_tables)).1 !! 100
    = Some c ∧
    ci_id c = 100 ∧
    ci_name c = JStr "Xanax" ∧
    ci_category c = JStr "Drug" ∧
    ci_market_value c = JInt 850 ∧
    ci_type c = JStr "".
Proof.
  apply (refresh_caches_item xanax_env (fresh_scanner empty_tables) "100"
           [("name", JStr "Xanax"); ("type", JStr "Drug"); ("market_value", JInt 850)]
           100).
  - vm_compute. reflexivity.
  - apply list_elem_of_here.
  - reflexivity.
  - intros entry Hin _. apply elem_of_cons in Hin as [->|Hin]; [done|].
    by apply elem_of_nil in Hin.
Defined.

Lemma refresh_ok_env (e : env) (s s' : scanner) :
  (_fetch_items_metadata e s).2 = (_fetch_items_metadata e s').2.
Proof.
  unfold _fetch_items_metadata.
  destruct (catalog_response e) as [|data]; [done|].
  destruct (py_in "items" data) as [[|]|]; try done.
  destruct (py_getitem "items" data) as [[| | | | |entries]|]; try done.
  pose proof (cache_items_ok e entries (emit EvCatalogRequest s)) as H1.
  pose proof (cache_items_ok e entries (emit EvCatalogRequest s')) as H2.
  destruct (cache_items e entries (emit EvCatalogRequest s)) as [s1 ok1].
  destruct (cache_items e entries (emit EvCatalogRequest s')) as [s2 ok2].
  simpl in *. subst. by destruct (forallb entry_ok entries).
Qed.

(** X20: whether a refresh succeeds depends on the answer of the API alone,
    and refreshing again from the same answer changes nothing in the cache:
    after one successful refresh a second one succeeds too and leaves the
    cache as the first one left it. *)
Theorem refresh_twice (e : env) (s : scanner) :
  (_fetch_items_metadata e s).2 = true →
  let s1 := (_fetch_items_metadata e s).1 in
  (_fetch_items_metadata e s1).2 = true ∧
  items_cache (_fetch_items_metadata e s1).1 = items_cache s1.
Proof.
  intros Hok. cbv zeta.
  assert (Hok1 : (_fetch_items_metadata e (_fetch_items_metadata e s).1).2 = true)
    by (by rewrite (refresh_ok_env e _ s)).
  split; [done|]. by apply (refresh_idempotent e s).
Qed.

Lemma refresh_twice_witness :
  let s1 := (_fetch_items_metadata xanax_env (fresh_scanner empty_tables)).1 in
  (_fetch_items_metadata xanax_env s1).2 = true ∧
  items_cache (_fetch_items_metadata xanax_env s1).1 = items_cache s1.
Proof.
  apply (refresh_twice xanax_env (fresh_scanner empty_tables)).
  vm_compute. reflexivity.
Defined.
